(** * 3DSpatialAgents: the video front end

    A shallow embedding of [updatedStreamlit.py]: the extractor
    [extract_json_payload], the uploader [upload_and_process_video] with its
    polling loop, and the two parts of [main] that hold logic (the upload slot
    kept in the session state, and the structured branch of the analysis).

    Python's [str] is a sequence of Unicode code points, so a text is a list of
    code points here. The regular expressions of the source are kept as syntax
    and run by a backtracking matcher with the priorities of Python's [re]. *)

From Stdlib Require Import Ascii String List NArith ZArith Bool Arith Lia.
From Stdlib Require Import DecimalString DecimalZ.
Import ListNotations.

(** ** Python strings *)

Definition char := N.
Definition str := list char.

(** [chr "x"] is the code point of an ASCII character, [py "..."] the text of
    an ASCII literal. *)
Definition chr (a : ascii) : char := N_of_ascii a.
Definition py (s : string) : str := List.map N_of_ascii (list_ascii_of_string s).

Definition quote : char := 0x22%N.
Definition nl : str := [0x0A%N].
Definition dq : str := [quote].

Fixpoint str_eqb (a b : str) : bool :=
  match a, b with
  | [], [] => true
  | x :: a', y :: b' => N.eqb x y && str_eqb a' b'
  | _, _ => false
  end.

(** [str.isspace] for one character, which is also what [\s] matches in a
    [str] pattern: both go through [Py_UNICODE_ISSPACE]. *)
Definition is_space (c : char) : bool :=
  ((0x09 <=? c) && (c <=? 0x0D) || (0x1C <=? c) && (c <=? 0x20)
   || (c =? 0x85) || (c =? 0xA0) || (c =? 0x1680)
   || (0x2000 <=? c) && (c <=? 0x200A)
   || (c =? 0x2028) || (c =? 0x2029) || (c =? 0x202F) || (c =? 0x205F)
   || (c =? 0x3000))%N.

Fixpoint lstrip (s : str) : str :=
  match s with
  | c :: s' => if is_space c then lstrip s' else s
  | [] => []
  end.

Definition rstrip (s : str) : str := rev (lstrip (rev s)).

(** [s.strip()] *)
Definition strip (s : str) : str := rstrip (lstrip s).

(** [s.startswith(p)], and the rest of [s] after [p]. *)
Fixpoint strip_prefix (p s : str) : option str :=
  match p, s with
  | [], _ => Some s
  | x :: p', y :: s' => if N.eqb x y then strip_prefix p' s' else None
  | _ :: _, [] => None
  end.

Definition startswith (s p : str) : bool :=
  match strip_prefix p s with Some _ => true | None => false end.

Definition endswith (s p : str) : bool := startswith (rev s) (rev p).

(** ** Regular expressions

    The fragment of [re] syntax the source uses. Every repetition in the two
    patterns is over a one-character set, so a repetition carries a set. *)

Inductive cset :=
| CChar (c : char)        (* a literal character *)
| CSpace                  (* \s *)
| CNotSpace               (* \S *)
| CDotAll                 (* . under re.DOTALL *)
| CUnion (a b : cset).    (* [ab] *)

Fixpoint cset_mem (cs : cset) (c : char) : bool :=
  match cs with
  | CChar d => N.eqb d c
  | CSpace => is_space c
  | CNotSpace => negb (is_space c)
  | CDotAll => true
  | CUnion a b => cset_mem a c || cset_mem b c
  end.

Inductive regex :=
| RAtom (cs : cset)                (* one character of the set *)
| RStr (p : str)                   (* a literal string *)
| RSeq (r1 r2 : regex)             (* r1 r2 *)
| ROpt (r : regex)                 (* (?:r)?  greedy *)
| RStar (cs : cset)                (* x*      greedy *)
| RStarLazy (cs : cset)            (* x*?     non-greedy *)
| RGroup (n : nat) (r : regex).    (* (r), capturing group n *)

(** The groups of a match, most recent binding first. *)
Definition captures := list (nat * str).

Fixpoint group (m : captures) (n : nat) : option str :=
  match m with
  | [] => None
  | (i, g) :: m' => if Nat.eqb i n then Some g else group m' n
  end.

Definition orelse {A} (a b : option A) : option A :=
  match a with Some x => Some x | None => b end.

(** [x*]: take as many characters as possible, give them back one by one while
    the rest of the pattern fails. *)
Fixpoint star_greedy {A} (p : char -> bool) (k : str -> option A) (s : str)
  : option A :=
  match s with
  | c :: s' => if p c then orelse (star_greedy p k s') (k s) else k s
  | [] => k s
  end.

(** [x*?]: try the rest of the pattern first, take one more character each
    time it fails. *)
Fixpoint star_lazy {A} (p : char -> bool) (k : str -> option A) (s : str)
  : option A :=
  match k s with
  | Some r => Some r
  | None =>
      match s with
      | c :: s' => if p c then star_lazy p k s' else None
      | [] => None
      end
  end.

(** The backtracking matcher: [rmatch r s m k] matches [r] at the head of [s]
    and hands the rest of the input and the groups to the continuation [k];
    the first success in priority order is the result. *)
Fixpoint rmatch {A} (r : regex) (s : str) (m : captures)
    (k : str -> captures -> option A) : option A :=
  match r with
  | RAtom cs =>
      match s with
      | c :: s' => if cset_mem cs c then k s' m else None
      | [] => None
      end
  | RStr p =>
      match strip_prefix p s with
      | Some s' => k s' m
      | None => None
      end
  | RSeq r1 r2 => rmatch r1 s m (fun s' m' => rmatch r2 s' m' k)
  | ROpt r1 => orelse (rmatch r1 s m k) (k s m)
  | RStar cs => star_greedy (cset_mem cs) (fun s' => k s' m) s
  | RStarLazy cs => star_lazy (cset_mem cs) (fun s' => k s' m) s
  | RGroup n r1 =>
      rmatch r1 s m
        (fun s' m' => k s' ((n, firstn (length s - length s') s) :: m'))
  end.

Definition match_here (r : regex) (s : str) : option captures :=
  rmatch r s [] (fun _ m => Some m).

(** [re.search(r, s)]: the match at the leftmost position that has one. *)
Fixpoint re_search (r : regex) (s : str) : option captures :=
  match match_here r s with
  | Some m => Some m
  | None =>
      match s with
      | [] => None
      | _ :: s' => re_search r s'
      end
  end.

(** ** Exceptions *)

Inductive exn :=
| ValueError (msg : str)        (* also json.JSONDecodeError, its subclass *)
| APIError (msg : str)          (* google.genai.errors.APIError *)
| OtherError (msg : str).       (* any other Exception *)

Inductive result (A : Type) :=
| Return (a : A)
| Raise (e : exn).
Arguments Return {A} a.
Arguments Raise {A} e.

(** ** extract_json_payload *)

Definition fence : str := py "```".

(** r"```(?:json)?\s*([\s\S]*?)\s*```" *)
Definition code_block_re : regex :=
  RSeq (RStr fence)
    (RSeq (ROpt (RStr (py "json")))
       (RSeq (RStar CSpace)
          (RSeq (RGroup 1 (RStarLazy (CUnion CSpace CNotSpace)))
             (RSeq (RStar CSpace) (RStr fence))))).

(** r'(\[.*?\])' with re.DOTALL *)
Definition list_re : regex :=
  RGroup 1
    (RSeq (RAtom (CChar (chr "[")))
       (RSeq (RStarLazy CDotAll) (RAtom (CChar (chr "]"))))).

Definition empty_msg : str := py "Model returned an empty response.".
Definition no_json_msg : str :=
  py "Could not extract JSON payload from model response: ".

(** The two errors that [extract_json_payload] raises; the specification
    calls them EmptyResponse and NoJsonFound. The second carries
    [raw_text[:100]]. *)
Definition EmptyResponse : exn := ValueError empty_msg.
Definition NoJsonFound (raw_text : str) : exn :=
  ValueError (no_json_msg ++ firstn 100 raw_text ++ py "...").

(** [m.group(1).strip()]; [group] is [None] for a group that took no part in
    the match, and [None] has no [strip]. *)
Definition group1_strip (m : captures) : result str :=
  match group m 1 with
  | Some g => Return (strip g)
  | None => Raise (OtherError (py "AttributeError"))
  end.

Definition extract_json_payload (raw_text : str) : result str :=
  let text := strip raw_text in
  match text with
  | [] => Raise EmptyResponse
  | _ :: _ =>
      match re_search code_block_re text with
      | Some m => group1_strip m
      | None =>
          if startswith text (py "[") && endswith text (py "]") then Return text
          else
            match re_search list_re text with
            | Some m => group1_strip m
            | None => Raise (NoJsonFound raw_text)
            end
      end
  end.

(** ** The contract of the extractor, in the specification's words

    The three strategies as the specification describes them, written without
    the regular expressions, to be compared with [extract_json_payload]. *)

(** The first occurrence of [p] in [s]: the text before it and the text after
    it ([s.partition(p)] without the separator). *)
Fixpoint split_at_first (p s : str) : option (str * str) :=
  match strip_prefix p s with
  | Some rest => Some ([], rest)
  | None =>
      match s with
      | [] => None
      | c :: s' =>
          match split_at_first p s' with
          | Some (a, b) => Some (c :: a, b)
          | None => None
          end
      end
  end.

(** The text after an opening fence, without the tag [json] when it is there. *)
Definition untag (after : str) : str :=
  match strip_prefix (py "json") after with
  | Some body => body
  | None => after
  end.

(** (a) the inner text of the first fenced block, trimmed: from the first
    fence (and its optional [json] tag) to the next fence. *)
Definition fenced_block (text : str) : option str :=
  match split_at_first fence text with
  | None => None
  | Some (_, after) =>
      match split_at_first fence (untag after) with
      | None => None
      | Some (inner, _) => Some (strip inner)
      end
  end.

(** (b) the trimmed text itself, when it starts with [[] and ends with []]. *)
Definition whole_array (text : str) : option str :=
  if startswith text (py "[") && endswith text (py "]") then Some text else None.

(** (c) the first [[...]] span: from the first [[] to the first []] after it. *)
Definition bracket_span (text : str) : option str :=
  match split_at_first (py "[") text with
  | None => None
  | Some (_, after) =>
      match split_at_first (py "]") after with
      | None => None
      | Some (inner, _) => Some (py "[" ++ inner ++ py "]")
      end
  end.

Definition first_success (text : str) : option str :=
  orelse (fenced_block text) (orelse (whole_array text) (bracket_span text)).

Definition extract_spec (raw_text : str) : result str :=
  match strip raw_text with
  | [] => Raise EmptyResponse
  | text =>
      match first_success text with
      | Some payload => Return payload
      | None => Raise (NoJsonFound raw_text)
      end
  end.

(** A text holds a fenced block when it holds two fences, one after the
    other; it holds a bracket span when it holds a [[] and, later, a []]. *)
Definition contains_block (s : str) : Prop :=
  exists a b c, s = a ++ fence ++ b ++ fence ++ c.

Definition contains_span (s : str) : Prop :=
  exists a b c, s = a ++ py "[" ++ b ++ py "]" ++ c.

(** The language identifier of a fenced block: the characters that follow the
    opening fence, up to the first space or line end. *)
Fixpoint language_tag (inner : str) : str :=
  match inner with
  | c :: s => if is_space c then [] else c :: language_tag s
  | [] => []
  end.

(** What follows the opening fence and its tag in [code_block_re], at the
    point where group 1 opens. *)
Definition block_tail (s1 : str) : option captures :=
  star_lazy (fun c => is_space c || negb (is_space c))
    (fun s2 =>
       star_greedy (fun c => is_space c)
         (fun s3 =>
            match strip_prefix fence s3 with
            | Some _ => Some [(1, firstn (length s1 - length s2) s1)]
            | None => None
            end) s2) s1.

(** ** json.loads

    Python's decoder for the JSON grammar, for the structured branch of
    [main]. An integer literal becomes an integer; a literal with a fraction
    or an exponent is kept as written (binary floating point is not
    modelled). The interpreter's resource limits (recursion depth, digits of
    an integer) are not modelled either. *)

#[local] Set Warnings "-register-all".

Inductive json :=
| JNull
| JBool (b : bool)
| JInt (n : Z)
| JFloat (literal : str)
| JString (s : str)
| JArray (items : list json)
| JObject (members : list (str * json)).

(** [d[key] = v] on a [dict] kept in insertion order. *)
Fixpoint dict_set (key : str) (v : json) (d : list (str * json))
  : list (str * json) :=
  match d with
  | [] => [(key, v)]
  | (k, x) :: d' =>
      if str_eqb k key then (k, v) :: d' else (k, x) :: dict_set key v d'
  end.

Definition is_json_ws (c : char) : bool :=
  ((c =? 0x20) || (c =? 0x09) || (c =? 0x0A) || (c =? 0x0D))%N.

Fixpoint skip_ws (s : str) : str :=
  match s with
  | c :: s' => if is_json_ws c then skip_ws s' else s
  | [] => []
  end.

Definition is_digit (c : char) : bool := ((chr "0" <=? c) && (c <=? chr "9"))%N.

(** The digits at the head of [s], and the rest. *)
Fixpoint span_digits (s : str) : str * str :=
  match s with
  | c :: s' =>
      if is_digit c then let (ds, r) := span_digits s' in (c :: ds, r)
      else ([], s)
  | [] => ([], [])
  end.

Definition digits_value (ds : str) : Z :=
  fold_left (fun acc c => (10 * acc + Z.of_N (c - chr "0")%N)%Z) ds 0%Z.

(** A number: an optional minus sign, then 0 or a digit string without a
    leading 0, then an optional fraction (a point and digits) and an optional
    exponent (e or E, an optional sign, digits). *)
Definition scan_number (s : str) : option (json * str) :=
  let (sign, s1) :=
    match s with
    | c :: r => if (c =? chr "-")%N then ([c], r) else ([], s)
    | [] => ([], s)
    end in
  match s1 with
  | [] => None
  | d :: r =>
      if is_digit d then
        let (int_digits, r1) :=
          if (d =? chr "0")%N then ([d], r)
          else let (ds, r') := span_digits r in (d :: ds, r') in
        let (frac, r2) :=
          match r1 with
          | c :: r' =>
              if (c =? chr ".")%N then
                match span_digits r' with
                | ([], _) => ([], r1)
                | (fs, r'') => (c :: fs, r'')
                end
              else ([], r1)
          | [] => ([], r1)
          end in
        let (expo, r3) :=
          match r2 with
          | e :: r' =>
              if ((e =? chr "e") || (e =? chr "E"))%N then
                let (esign, r'') :=
                  match r' with
                  | c :: t =>
                      if ((c =? chr "-") || (c =? chr "+"))%N then ([c], t)
                      else ([], r')
                  | [] => ([], r')
                  end in
                match span_digits r'' with
                | ([], _) => ([], r2)
                | (es, t) => (e :: esign ++ es, t)
                end
              else ([], r2)
          | [] => ([], r2)
          end in
        match frac, expo with
        | [], [] =>
            let v := digits_value int_digits in
            Some (JInt (match sign with [] => v | _ => - v end)%Z, r3)
        | _, _ => Some (JFloat (sign ++ int_digits ++ frac ++ expo), r3)
        end
      else None
  end.

Definition hex_value (c : char) : option N :=
  (if (chr "0" <=? c) && (c <=? chr "9") then Some (c - chr "0")
   else if (chr "a" <=? c) && (c <=? chr "f") then Some (c - chr "a" + 10)
   else if (chr "A" <=? c) && (c <=? chr "F") then Some (c - chr "A" + 10)
   else None)%N.

Definition hex4 (a b c d : char) : option N :=
  match hex_value a, hex_value b, hex_value c, hex_value d with
  | Some x, Some y, Some z, Some w => Some (((x * 16 + y) * 16 + z) * 16 + w)%N
  | _, _, _, _ => None
  end.

Definition unescape (e : char) : option char :=
  (if e =? quote then Some e
   else if e =? chr "\" then Some e
   else if e =? chr "/" then Some e
   else if e =? chr "b" then Some 0x08
   else if e =? chr "f" then Some 0x0C
   else if e =? chr "n" then Some 0x0A
   else if e =? chr "r" then Some 0x0D
   else if e =? chr "t" then Some 0x09
   else None)%N.

Definition cons_str (c : char) (r : option (str * str)) : option (str * str) :=
  match r with
  | Some (x, rest) => Some (c :: x, rest)
  | None => None
  end.

(** The body of a string, after its opening quote (strict mode: no control
    character; a pair of surrogate escapes makes one character). *)
Fixpoint scan_string (s : str) : option (str * str) :=
  match s with
  | [] => None
  | c :: r =>
      if (c =? quote)%N then Some ([], r)
      else if (c =? chr "\")%N then
        match r with
        | [] => None
        | e :: r1 =>
            if (e =? chr "u")%N then
              match r1 with
              | h1 :: h2 :: h3 :: h4 :: r2 =>
                  match hex4 h1 h2 h3 h4 with
                  | None => None
                  | Some uni =>
                      if ((0xD800 <=? uni) && (uni <=? 0xDBFF))%N then
                        match r2 with
                        | b :: u :: r3 =>
                            if ((b =? chr "\") && (u =? chr "u"))%N then
                              match r3 with
                              | g1 :: g2 :: g3 :: g4 :: r4 =>
                                  match hex4 g1 g2 g3 g4 with
                                  | None => None
                                  | Some uni2 =>
                                      if ((0xDC00 <=? uni2) && (uni2 <=? 0xDFFF))%N
                                      then
                                        cons_str
                                          (0x10000 + ((uni - 0xD800) * 1024
                                                      + (uni2 - 0xDC00)))%N
                                          (scan_string r4)
                                      else cons_str uni (scan_string r2)
                                  end
                              | _ => None
                              end
                            else cons_str uni (scan_string r2)
                        | _ => cons_str uni (scan_string r2)
                        end
                      else cons_str uni (scan_string r2)
                  end
              | _ => None
              end
            else
              match unescape e with
              | Some x => cons_str x (scan_string r1)
              | None => None
              end
        end
      else if (c <? 0x20)%N then None
      else cons_str c (scan_string r)
  end.

(** null, true, false, NaN, Infinity, -Infinity, or a number. *)
Definition scan_literal (s : str) : option (json * str) :=
  match strip_prefix (py "null") s with
  | Some r => Some (JNull, r)
  | None =>
  match strip_prefix (py "true") s with
  | Some r => Some (JBool true, r)
  | None =>
  match strip_prefix (py "false") s with
  | Some r => Some (JBool false, r)
  | None =>
  match strip_prefix (py "NaN") s with
  | Some r => Some (JFloat (py "NaN"), r)
  | None =>
  match strip_prefix (py "Infinity") s with
  | Some r => Some (JFloat (py "Infinity"), r)
  | None =>
  match strip_prefix (py "-Infinity") s with
  | Some r => Some (JFloat (py "-Infinity"), r)
  | None => scan_number s
  end end end end end end.

(** One value at the head of [s]. Each call uses one unit of [fuel]; a value
    of [n] characters needs at most [2 * n + 1]. *)
Fixpoint parse_value (fuel : nat) (s : str) : option (json * str) :=
  match fuel with
  | 0 => None
  | S f =>
      match s with
      | [] => None
      | c :: r =>
          if (c =? quote)%N then
            match scan_string r with
            | Some (x, r') => Some (JString x, r')
            | None => None
            end
          else if (c =? chr "{")%N then
            match skip_ws r with
            | d :: r' =>
                if (d =? chr "}")%N then Some (JObject [], r')
                else parse_members f (d :: r') []
            | [] => None
            end
          else if (c =? chr "[")%N then
            match skip_ws r with
            | d :: r' =>
                if (d =? chr "]")%N then Some (JArray [], r')
                else parse_elems f (d :: r') []
            | [] => None
            end
          else scan_literal s
      end
  end
with parse_elems (fuel : nat) (s : str) (acc : list json) : option (json * str) :=
  match fuel with
  | 0 => None
  | S f =>
      match parse_value f s with
      | None => None
      | Some (v, r) =>
          match skip_ws r with
          | c :: r' =>
              if (c =? chr "]")%N then Some (JArray (acc ++ [v]), r')
              else if (c =? chr ",")%N then parse_elems f (skip_ws r') (acc ++ [v])
              else None
          | [] => None
          end
      end
  end
with parse_members (fuel : nat) (s : str) (acc : list (str * json))
  : option (json * str) :=
  match fuel with
  | 0 => None
  | S f =>
      match s with
      | q :: r =>
          if (q =? quote)%N then
            match scan_string r with
            | None => None
            | Some (key, r1) =>
                match skip_ws r1 with
                | c :: r2 =>
                    if (c =? chr ":")%N then
                      match parse_value f (skip_ws r2) with
                      | None => None
                      | Some (v, r3) =>
                          match skip_ws r3 with
                          | d :: r4 =>
                              if (d =? chr "}")%N
                              then Some (JObject (dict_set key v acc), r4)
                              else if (d =? chr ",")%N
                              then parse_members f (skip_ws r4) (dict_set key v acc)
                              else None
                          | [] => None
                          end
                      end
                    else None
                | [] => None
                end
            end
          else None
      | [] => None
      end
  end.

(** [json.loads(s)]; every failure is a [json.JSONDecodeError], a
    [ValueError] (its message is not modelled). *)
Definition json_loads (s : str) : result json :=
  let bad := Raise (ValueError (py "JSONDecodeError")) in
  match s with
  | c :: _ => if (c =? 0xFEFF)%N then bad else
      match parse_value (2 * length s + 2) (skip_ws s) with
      | Some (v, r) => match skip_ws r with [] => Return v | _ => bad end
      | None => bad
      end
  | [] => bad
  end.

(** ** The File service and the temporary file

    What the uploader calls outside the program: the remote collaborator
    behind [client.files], and the local disk on which it writes the
    temporary file. [W] is the state of both; each call answers from it and
    moves it on. A call returns or raises. *)

Definition bytes := list Byte.byte.

(** [File.state.name], as the source tells the states apart: the two names it
    tests, and the state of a file that is ready ([ACTIVE] in the File
    service, READY in the specification). *)
Inductive FileState := PROCESSING | ACTIVE | FAILED.

Definition state_name (s : FileState) : str :=
  match s with
  | PROCESSING => py "PROCESSING"
  | ACTIVE => py "ACTIVE"
  | FAILED => py "FAILED"
  end.

(** [types.File]: the handle of a remote asset. *)
Record File := {
  name : str;
  display_name : option str;
  state : FileState;
  uri : str
}.

(** The file of [st.file_uploader]: [uploaded_video.name] and
    [uploaded_video.getvalue()]. *)
Record UploadedFile := {
  video_name : str;
  getvalue : bytes
}.

Record Client (W : Type) := {
  (* tempfile.NamedTemporaryFile(suffix=..., delete=False) and tmp_file.write *)
  tempfile_write : W -> str -> bytes -> result unit * W;
  files_upload : W -> str -> bytes -> result File * W;  (* suffix, content *)
  files_get : W -> str -> result File * W;
  files_delete : W -> str -> result unit * W
}.
Arguments tempfile_write {W} _ _ _ _.
Arguments files_upload {W} _ _ _ _.
Arguments files_get {W} _ _ _.
Arguments files_delete {W} _ _ _.

(** What a run does that can be observed: the calls to the service, the
    pauses, and the page elements. *)
Inductive ui :=
| st_info (s : str)
| st_error (s : str)
| st_success (s : str)
| st_warning (s : str)
| st_markdown (s : str)
| st_write (s : str)
| st_subheader (s : str)
| st_json (v : json)
| st_code (s : str) (language : option str).

Inductive event :=
| Upload (suffix : str) (content : bytes)  (* client.files.upload *)
| Get (file : str)                         (* client.files.get *)
| Delete (file : str)                      (* client.files.delete *)
| Sleep (seconds : nat)                    (* time.sleep *)
| Page (e : ui).

Definition exn_text (e : exn) : str :=
  match e with
  | ValueError m => m
  | APIError m => m
  | OtherError m => m
  end.

(** [name.split('.')[-1]]: the text after the last point, and whether there
    is a point. *)
Fixpoint last_segment (s : str) : str * bool :=
  match s with
  | [] => ([], false)
  | c :: s' =>
      let (seg, seen) := last_segment s' in
      if seen then (seg, true)
      else if (c =? chr ".")%N then (seg, true)
      else (c :: seg, false)
  end.

Definition file_ext (video : UploadedFile) : str :=
  let (seg, seen) := last_segment (video_name video) in
  if seen then seg else py "mp4".

Section Lifecycle.

Context {W : Type} (client : Client W).

(** The polling loop of [upload_and_process_video]:
    [while uploaded_file.state.name == "PROCESSING": sleep; get].
    The loop has no bound of its own; [fuel] bounds the polls of one run of
    the model, and [None] is a run that is still polling when it is used up. *)
Fixpoint poll (fuel : nat) (w : W) (uploaded_file : File)
  : option (result File * W * list event) :=
  match state uploaded_file with
  | PROCESSING =>
      match fuel with
      | 0 => None
      | S fuel' =>
          let polled := [Sleep 5; Get (name uploaded_file)] in
          match files_get client w (name uploaded_file) with
          | (Return f, w') =>
              match poll fuel' w' f with
              | Some (r, w'', evs) => Some (r, w'', polled ++ evs)
              | None => None
              end
          | (Raise e, w') => Some (Raise e, w', polled)
          end
      end
  | _ => Some (Return uploaded_file, w, [])
  end.

(** The loop started on [uploaded_file] comes to an end at its [k]-th poll:
    that poll answers a state other than PROCESSING, or it raises. *)
Inductive settles : W -> File -> nat -> Prop :=
| settles_now w f :
    state f <> PROCESSING -> settles w f 0
| settles_raise w f e w' :
    state f = PROCESSING ->
    files_get client w (name f) = (Raise e, w') ->
    settles w f 1
| settles_next w f f' w' k :
    state f = PROCESSING ->
    files_get client w (name f) = (Return f', w') ->
    settles w' f' k ->
    settles w f (S k).

(** The two [except] clauses of [upload_and_process_video]. *)
Definition upload_failed (e : exn) : event :=
  match e with
  | APIError m =>
      Page (st_error (py "Gemini API Error during file upload/processing: " ++ m))
  | _ => Page (st_error (py "An unexpected error occurred: " ++ exn_text e))
  end.

(** [upload_and_process_video(client, video_file)]. The content goes to
    [client.files.upload] through a temporary file; when that file cannot be
    made or written the call ends in the [except] clauses before anything is
    shown or uploaded. The removal of the file in the [finally] clause, which
    [os.path.exists] guards, is taken to succeed. *)
Definition upload_and_process_video (fuel : nat) (w : W) (video_file : UploadedFile)
  : option (option File * W * list event) :=
  let suffix := py "." ++ file_ext video_file in
  let started :=
    [Page (st_info (py "File upload started..."));
     Upload suffix (getvalue video_file)] in
  match tempfile_write client w suffix (getvalue video_file) with
  | (Raise e, w0) => Some (None, w0, [upload_failed e])
  | (Return _, w0) =>
  match files_upload client w0 suffix (getvalue video_file) with
  | (Raise e, w1) => Some (None, w1, started ++ [upload_failed e])
  | (Return uploaded_file, w1) =>
      let waiting :=
        [Page (st_info (py "File uploaded. State: "
                         ++ state_name (state uploaded_file)
                         ++ py ". Waiting for processing..."))] in
      match poll fuel w1 uploaded_file with
      | None => None
      | Some (Raise e, w2, evs) =>
          Some (None, w2, started ++ waiting ++ evs ++ [upload_failed e])
      | Some (Return f, w2, evs) =>
          match state f with
          | FAILED =>
              Some (None, w2,
                    started ++ waiting ++ evs ++
                    [Page (st_error
                             (py "Video processing failed on Gemini service: "
                              ++ name f))])
          | _ =>
              Some (Some f, w2,
                    started ++ waiting ++ evs ++
                    [Page (st_success (py "Video ready for analysis: " ++ name f))])
          end
      end
  end
  end.

(** The upload of [video] started in [w] comes to its end within [fuel]
    polls: the temporary file is written, and then the upload raises, or it
    returns a file whose polling settles at a poll that the run reaches. *)
Inductive upload_goes_through (fuel : nat) (w : W) (video : UploadedFile) : Prop :=
| through_upload_error u w0 e w1 :
    tempfile_write client w (py "." ++ file_ext video) (getvalue video)
    = (Return u, w0) ->
    files_upload client w0 (py "." ++ file_ext video) (getvalue video)
    = (Raise e, w1) ->
    upload_goes_through fuel w video
| through_polling u w0 f w1 k :
    tempfile_write client w (py "." ++ file_ext video) (getvalue video)
    = (Return u, w0) ->
    files_upload client w0 (py "." ++ file_ext video) (getvalue video)
    = (Return f, w1) ->
    settles w1 f k ->
    k <= fuel ->
    upload_goes_through fuel w video.

(** [display_name != uploaded_video.name] *)
Definition name_differs (f : File) (video : UploadedFile) : bool :=
  match display_name f with
  | Some d => negb (str_eqb d (video_name video))
  | None => true
  end.

(** [main], the upload section: the slot [st.session_state.gemini_video_file]
    and the file of the uploader, up to the point where the slot is settled. *)
Definition main_upload (fuel : nat) (w : W) (gemini_video_file : option File)
    (uploaded_video : option UploadedFile)
  : option (option File * W * list event) :=
  match uploaded_video with
  | None =>
      Some (gemini_video_file, w,
            [Page (st_info (py "Upload a video file to begin analysis."))])
  | Some video =>
      match gemini_video_file with
      | None => upload_and_process_video fuel w video
      | Some previous =>
          if name_differs previous video then
            (* try: client.files.delete(...)  except Exception: pass *)
            let (_, w1) := files_delete client w (name previous) in
            match upload_and_process_video fuel w1 video with
            | Some (slot, w2, evs) => Some (slot, w2, Delete (name previous) :: evs)
            | None => None
            end
          else Some (gemini_video_file, w, [])
      end
  end.

(** The state in which a run of the upload section with a file in the
    uploader starts its upload: the state it is started in when the slot is
    empty, the state that the delete leaves when the slot holds an asset of
    another display name, and none when the guard keeps the slot. *)
Definition upload_starts_in (w : W) (gemini_video_file : option File)
    (video : UploadedFile) : option W :=
  match gemini_video_file with
  | None => Some w
  | Some previous =>
      if name_differs previous video
      then Some (snd (files_delete client w (name previous)))
      else None
  end.

(** The events of a loop that polls the names [polled] in turn. *)
Definition polls (polled : list str) : list event :=
  flat_map (fun n => [Sleep 5; Get n]) polled.

End Lifecycle.

(** ** The analysis *)

Inductive mode := Embodied_Reasoning | Structured_Detection.

Definition result_header : list ui :=
  [st_write (py "---"); st_subheader ([0x2705%N] ++ py " Analysis Result")].

Section Analysis.

(** [json.loads], as a parameter: [json_loads] above is the instance. *)
Variable loads : str -> result json.

(** The body of the inner [try] of the structured branch: what it shows, and
    the exception that ends it, if any. *)
Definition structured_try (text : str) : list ui * option exn :=
  match extract_json_payload text with
  | Raise e => ([], Some e)
  | Return raw_json =>
      match loads raw_json with
      | Raise e => ([], Some e)
      | Return v => ([st_json v; st_code raw_json (Some (py "json"))], None)
      end
  end.

(** The structured branch with its [except ValueError as ve]. *)
Definition structured_branch (text : str) : list ui * option exn :=
  match structured_try text with
  | (shown, Some (ValueError ve)) =>
      (shown ++
       [st_warning
          (py "Could not parse model output as JSON. Displaying raw text: " ++ ve);
        st_markdown text], None)
  | other => other
  end.

(** [main], from the call of the model to the end of the outer [try]:
    [response] is what [client.models.generate_content] returns or raises,
    as the text of the response. *)
Definition run_analysis (analysis_mode : mode) (response : result str) : list ui :=
  match response with
  | Raise (APIError m) => [st_error (py "Gemini API Error during generation: " ++ m)]
  | Raise e =>
      [st_error (py "An unexpected error occurred: " ++ exn_text e);
       st_code (py "No model response available.") None]
  | Return text =>
      let (shown, raised) :=
        match analysis_mode with
        | Structured_Detection => structured_branch text
        | Embodied_Reasoning => ([st_markdown text], None)
        end in
      match raised with
      | None => result_header ++ shown
      | Some (APIError m) =>
          result_header ++ shown ++
          [st_error (py "Gemini API Error during generation: " ++ m)]
      | Some e =>
          result_header ++ shown ++
          [st_error (py "An unexpected error occurred: " ++ exn_text e);
           st_code text None]
      end
  end.

End Analysis.

(** The items of the result that the structured branch shows with
    [st.json]. *)
Definition shown_items (page : list ui) : list json :=
  flat_map (fun e => match e with st_json (JArray items) => items | _ => [] end) page.

(** The warnings and errors of a page: its diagnostics. *)
Definition diagnostics (page : list ui) : list ui :=
  filter (fun e => match e with st_warning _ | st_error _ => true | _ => false end) page.

(** ** The whole of [main]

    The page of [updatedStreamlit.py] from its first widget to its last
    branch. The widgets are inputs: the file of the uploader, the text of the
    prompt area, the mode of the radio, and whether the button was pressed in
    this run. The spinners are not modelled. *)

Definition MODEL_ID : str := py "gemini-robotics-er-1.5-preview".

Definition DETECTION_PROMPT : str :=
  nl ++ py "You are a precision vision-language model for robotics. Analyze the video and provide the location of key objects within a frame that is most relevant to executing a physical task. Point to no more than 10 items. The label returned should be an identifying name for the object detected. The answer must follow the json format: [{"
  ++ dq ++ py "point" ++ dq ++ py ": <point>, " ++ dq ++ py "label" ++ dq
  ++ py ": <label>}]. The points are in [y, x] format normalized to 0-1000."
  ++ nl.

Definition DESCRIPTION_PROMPT : str :=
  nl ++ py "You are a state-of-the-art embodied reasoning model for a robotic system. Your primary task is to analyze the provided video input and provide a thorough, natural language description of the scene. Focus on key objects, their spatial relationships, affordances (what actions can be performed on them), and the overall context of the environment. Provide a logical plan (in list format) for a robot to achieve the goal implied by the user's prompt. Respond only with the descriptive text and the plan; do not include any JSON or code blocks."
  ++ nl.

Record Inputs := {
  uploaded_video : option UploadedFile;   (* st.file_uploader *)
  user_prompt : str;                      (* st.text_area *)
  analysis_mode : mode;                   (* st.radio *)
  run_button : bool                       (* st.button *)
}.

(** What a run of [main] does: what the upload section does, the headers and
    the player of the page, and the call of the model. *)
Inductive main_event :=
| Did (e : event)
| st_header (s : str)
| st_video (v : UploadedFile)
| Generate (model : str) (prompt : str) (file : File) (system_instruction : str).

Definition system_instruction_of (m : mode) : str :=
  match m with
  | Structured_Detection => DETECTION_PROMPT
  | Embodied_Reasoning => DESCRIPTION_PROMPT
  end.

Section Main.

Context {W : Type} (client : Client W).

(** [json.loads], and [client.models.generate_content] as the text it returns
    or the exception it raises for a prompt, a file and a system instruction. *)
Variable loads : str -> result json.
Variable generate : str -> File -> str -> result str.

Definition main (fuel : nat) (w : W) (gemini_video_file : option File)
    (inp : Inputs) : option (option File * W * list main_event) :=
  let top := [st_header (py "Upload Your Video " ++ [0x1F3A5%N])] in
  match uploaded_video inp with
  | None =>
      Some (gemini_video_file, w,
            top ++ [Did (Page (st_info (py "Upload a video file to begin analysis.")))])
  | Some video =>
      match main_upload client fuel w gemini_video_file (Some video) with
      | None => None
      | Some (slot, w', evs) =>
          let shown := top ++ List.map Did evs ++ [st_video video] in
          match slot with
          | None =>
              Some (slot, w',
                    shown ++
                    [Did (Page (st_error (py "Cannot run analysis because the video file failed to process on the Gemini service.")))])
          | Some gemini_file =>
              let form :=
                [Did (Page (st_info (py "File URI: " ++ uri gemini_file)));
                 st_header (py "Enter Your Prompt and Analysis Mode " ++ [0x1F916%N])] in
              let system_instruction := system_instruction_of (analysis_mode inp) in
              if run_button inp then
                match user_prompt inp with
                | [] =>
                    Some (slot, w',
                          shown ++ form ++
                          [Did (Page (st_warning (py "Please enter a prompt before running the analysis.")))])
                | _ :: _ =>
                    Some (slot, w',
                          shown ++ form ++
                          Generate MODEL_ID (user_prompt inp) gemini_file system_instruction
                          :: List.map (fun e => Did (Page e))
                               (run_analysis loads (analysis_mode inp)
                                  (generate (user_prompt inp) gemini_file
                                     system_instruction)))
                end
              else Some (slot, w', shown ++ form)
          end
      end
  end.

End Main.

(** The calls of the model in a run, and the calls to the File service. *)
Definition model_calls (evs : list main_event) : list main_event :=
  filter (fun e => match e with Generate _ _ _ _ => true | _ => false end) evs.

Definition uploads (evs : list event) : list event :=
  filter (fun e => match e with Upload _ _ => true | _ => false end) evs.

Definition deletes (evs : list event) : list event :=
  filter (fun e => match e with Delete _ => true | _ => false end) evs.

Definition gets (evs : list event) : list event :=
  filter (fun e => match e with Get _ => true | _ => false end) evs.

(** The seconds that a run sleeps. *)
Definition slept (evs : list event) : nat :=
  fold_right (fun e t => match e with Sleep s => s + t | _ => t end) 0 evs.

(** The slot holds nothing, or an asset that is READY. *)
Definition slot_ready (slot : option File) : Prop :=
  match slot with
  | Some f => state f = ACTIVE
  | None => True
  end.

(** ** get_client

    [st.secrets] and [os.environ] are mappings from names to texts: a list of
    bindings, of which the first for a name counts. *)

Definition mapping := list (str * str).

(** [key in d] and [d[key]] *)
Fixpoint mapping_has (key : str) (d : mapping) : bool :=
  match d with
  | [] => false
  | (k, _) :: d' => str_eqb k key || mapping_has key d'
  end.

Fixpoint mapping_get (key : str) (d : mapping) : option str :=
  match d with
  | [] => None
  | (k, v) :: d' => if str_eqb k key then Some v else mapping_get key d'
  end.

(** How a call of [get_client] ends: with a client made for a key, with the
    [KeyError] of a missing name, with [st.stop()], or with the
    [StreamlitSecretNotFoundError] that [st.secrets] raises when it is used
    and there is no secrets file. *)
Inductive started :=
| Client_for (api_key : str)
| KeyError (key : str)
| Stopped
| SecretNotFound.

Definition GEMINI_API_KEY : str := py "GEMINI_API_KEY".

(** [get_client] of [updatedStreamlit.py]. [st_secrets] is the content of the
    secrets file, or [None] when there is no such file: the test
    ["GEMINI_API_KEY" not in st.secrets] then raises. *)
Definition get_client (st_secrets : option mapping) : list ui * started :=
  match st_secrets with
  | None => ([], SecretNotFound)
  | Some secrets =>
      if negb (mapping_has GEMINI_API_KEY secrets) then
        ([st_error ([0x1F6A8%N] ++ py " Gemini API Key not found. Please set it in your Streamlit secrets.")],
         Stopped)
      else
        match mapping_get GEMINI_API_KEY secrets with
        | Some k => ([], Client_for k)
        | None => ([], KeyError GEMINI_API_KEY)
        end
  end.

(** [get_client] of [finalfront.py], where a secrets file is in place:
    [secrets] is its content. *)
Definition finalfront_get_client (environ secrets : mapping) : list ui * started :=
  let not_found :=
    st_error ([0x1F6A8%N] ++ py " **API Key not found.** Please set the `GEMINI_API_KEY` as a Codespaces Secret, an environment variable, or in your `secrets.toml` file.") in
  let finish (shown : list ui) (api_key : option str) :=
    match api_key with
    | Some (c :: k) => (shown, Client_for (c :: k))
    | _ => (shown ++ [not_found], Stopped)
    end in
  if mapping_has GEMINI_API_KEY environ then
    match mapping_get (py ".env") environ with
    | None => ([], KeyError (py ".env"))
    | Some k =>
        finish [st_success (py "API Key loaded from OS environment.")] (Some k)
    end
  else if mapping_has GEMINI_API_KEY secrets then
    match mapping_get [] secrets with
    | None => ([], KeyError [])
    | Some k =>
        finish [st_success (py "API Key loaded from Streamlit secrets.")] (Some k)
    end
  else finish [] None.

(** ** capture_and_process_frame ([my_agent/Analyzer.py]) *)

(** [str(n)] for an integer. *)
Definition str_of_int (n : Z) : str := py (NilZero.string_of_int (Z.to_int n)).

Definition capture_and_process_frame (camera_id : Z) : mapping :=
  if (camera_id =? 1)%Z then
    [(py "status", py "SUCCESS"); (py "frame_id", py "F_4523");
     (py "resolution", py "1080p")]
  else
    [(py "status", py "ERROR");
     (py "message", py "Camera " ++ str_of_int camera_id ++ py " not found.")].

(** [p] is a contiguous part of [s]. *)
Definition part_of (p s : str) : Prop := exists a b, s = a ++ p ++ b.

(** The verdicts of an upload on the page: its successes and errors. *)
Definition verdicts (evs : list event) : list event :=
  filter (fun e => match e with
                   | Page (st_success _) | Page (st_error _) => true
                   | _ => false
                   end) evs.

(** ** Sample inputs

    A service that answers the polls from a script (and PROCESSING once the
    script is used up), names every upload [display], and refuses every
    delete. *)

Definition sample_file (display : option str) (s : FileState) : File :=
  {| name := py "files/abc123";
     display_name := display;
     state := s;
     uri := py "https://example.invalid/files/abc123" |}.

Definition scripted_client (display : option str) : Client (list FileState) :=
  {| tempfile_write := fun w _ _ => (Return tt, w);
     files_upload := fun w _ _ => (Return (sample_file display PROCESSING), w);
     files_get := fun w _ =>
       match w with
       | s :: w' => (Return (sample_file display s), w')
       | [] => (Return (sample_file display PROCESSING), [])
       end;
     files_delete := fun w _ => (Raise (APIError (py "404 NOT_FOUND")), w) |}.

(** The same service, seen from a machine whose disk is full. *)
Definition full_disk_client (display : option str) : Client (list FileState) :=
  {| tempfile_write := fun w _ _ =>
       (Raise (OtherError (py "[Errno 28] No space left on device")), w);
     files_upload := files_upload (scripted_client display);
     files_get := files_get (scripted_client display);
     files_delete := files_delete (scripted_client display) |}.

Definition video_a1 : UploadedFile :=
  {| video_name := py "a.mp4"; getvalue := [Byte.x01; Byte.x02; Byte.x03] |}.


Definition video_b : UploadedFile :=
  {| video_name := py "b.mov"; getvalue := [Byte.x07] |}.

(** A run of the page: [a.mp4] in the uploader, a prompt, the structured
    mode, the button pressed. *)
Definition sample_inputs : Inputs :=
  {| uploaded_video := Some video_a1;
     user_prompt := py "Where is the cup?";
     analysis_mode := Structured_Detection;
     run_button := true |}.

(** One annotation, as the detection prompt asks for it, and the array of
    [n] of them. *)
Definition point_item : str :=
  py "{" ++ dq ++ py "point" ++ dq ++ py ": [500, 500], "
  ++ dq ++ py "label" ++ dq ++ py ": " ++ dq ++ py "cup" ++ dq ++ py "}".

Fixpoint join (sep : str) (l : list str) : str :=
  match l with
  | [] => []
  | [x] => x
  | x :: l' => x ++ sep ++ join sep l'
  end.

Definition items_text (n : nat) : str :=
  py "[" ++ join (py ", ") (repeat point_item n) ++ py "]".

(* ================================================================== *)
(** * Properties *)

(** ** Trimming *)

Lemma lstrip_app (a b : str) :
  lstrip (a ++ b) = match lstrip a with [] => lstrip b | l => l ++ b end.
Proof.
  induction a as [|c a IH]; simpl; [now destruct (lstrip b)|].
  destruct (is_space c); auto.
Qed.

Lemma rstrip_cons (c : char) (s : str) :
  rstrip (c :: s) =
  match rstrip s with
  | [] => if is_space c then [] else [c]
  | l => c :: l
  end.
Proof.
  unfold rstrip. simpl. rewrite lstrip_app.
  destruct (lstrip (rev s)) as [|d l]; simpl.
  - now destruct (is_space c).
  - rewrite rev_app_distr. simpl.
    destruct (rev l ++ [d]) eqn:E; [now destruct (rev l)|reflexivity].
Qed.

Lemma rstrip_nil_iff (s : str) : rstrip s = [] <-> lstrip s = [].
Proof.
  induction s as [|c s IH]; [now split|].
  rewrite rstrip_cons. simpl.
  destruct (is_space c); destruct (rstrip s) eqn:E; split; intro H;
    try discriminate; try (now apply IH).
  apply IH in H. discriminate.
Qed.

Lemma lstrip_idem (s : str) : lstrip (lstrip s) = lstrip s.
Proof.
  induction s as [|c s IH]; simpl; auto.
  destruct (is_space c) eqn:E; auto. simpl. now rewrite E.
Qed.

(** Trimming on the right leaves the first character alone when it is not a
    space. *)
Lemma lstrip_fix_rstrip (s : str) : lstrip s = s -> lstrip (rstrip s) = rstrip s.
Proof.
  destruct s as [|c s]; [reflexivity|]. simpl.
  destruct (is_space c) eqn:E.
  - intro H. exfalso.
    assert (L : List.length (lstrip s) <= List.length s).
    { clear. induction s as [|d s IH]; simpl; auto.
      destruct (is_space d); simpl; lia. }
    rewrite H in L. simpl in L. lia.
  - intros _. rewrite rstrip_cons.
    destruct (rstrip s); rewrite ?E; simpl; now rewrite E.
Qed.

Lemma rstrip_idem (s : str) : rstrip (rstrip s) = rstrip s.
Proof.
  unfold rstrip. rewrite rev_involutive. now rewrite lstrip_idem.
Qed.

Lemma strip_idem (s : str) : strip (strip s) = strip s.
Proof.
  unfold strip.
  rewrite (lstrip_fix_rstrip (lstrip s) (lstrip_idem s)).
  apply rstrip_idem.
Qed.

(** ** First occurrences *)

Lemma split_at_first_cons (p : str) (c : char) (s : str) :
  strip_prefix p (c :: s) = None ->
  split_at_first p (c :: s) =
  match split_at_first p s with
  | Some (a, b) => Some (c :: a, b)
  | None => None
  end.
Proof. intro H. simpl. now rewrite H. Qed.

Lemma strip_prefix_app (p s rest : str) :
  strip_prefix p s = Some rest -> s = p ++ rest.
Proof.
  revert s. induction p as [|x p IH]; intros s H; simpl in H.
  - now inversion H.
  - destruct s as [|y s]; [discriminate|].
    destruct (N.eqb_spec x y); [|discriminate].
    subst. simpl. f_equal. now apply IH.
Qed.

Lemma strip_prefix_refl (p rest : str) : strip_prefix p (p ++ rest) = Some rest.
Proof.
  induction p as [|x p IH]; simpl; auto. now rewrite N.eqb_refl.
Qed.

Lemma split_at_first_app (p s a b : str) :
  split_at_first p s = Some (a, b) -> s = a ++ p ++ b.
Proof.
  revert a b. induction s as [|c s IH]; intros a b H; simpl in H.
  - destruct (strip_prefix p []) eqn:E; [|discriminate].
    inversion H; subst. simpl. now apply strip_prefix_app.
  - destruct (strip_prefix p (c :: s)) eqn:E.
    + inversion H; subst. simpl. now apply strip_prefix_app.
    + destruct (split_at_first p s) as [[a' b']|]; [|discriminate].
      inversion H; subst. simpl. f_equal. now apply IH.
Qed.

Lemma split_at_first_tl (p s : str) :
  p <> [] -> split_at_first p s = None -> split_at_first p (tl s) = None.
Proof.
  intros Hp H. destruct s as [|c s]; [exact H|]. simpl in *.
  destruct (strip_prefix p (c :: s)); [discriminate|].
  now destruct (split_at_first p s) as [[? ?]|].
Qed.

(** ** The fence and spaces *)

Lemma fence_chars : fence = [chr "`"; chr "`"; chr "`"].
Proof. reflexivity. Qed.

Lemma space_not_tick (c : char) : is_space c = true -> (chr "`" =? c)%N = false.
Proof.
  intro H. destruct (N.eqb_spec (chr "`") c) as [E|]; [|reflexivity].
  subst. discriminate H.
Qed.

Lemma strip_prefix_fence_space (c : char) (s : str) :
  is_space c = true -> strip_prefix fence (c :: s) = None.
Proof.
  intro H. rewrite fence_chars. cbn [strip_prefix]. now rewrite (space_not_tick c H).
Qed.

Lemma strip_prefix_fence_lstrip (s rest : str) :
  strip_prefix fence s = Some rest -> lstrip s = s.
Proof.
  destruct s as [|c s]; [reflexivity|]. intro H. cbn [lstrip].
  destruct (is_space c) eqn:E; [|reflexivity].
  now rewrite (strip_prefix_fence_space c s E) in H.
Qed.

(** Leading spaces hold no fence. *)
Lemma split_fence_lstrip (s : str) :
  split_at_first fence (lstrip s) =
  match split_at_first fence s with
  | Some (a, b) => Some (lstrip a, b)
  | None => None
  end.
Proof.
  induction s as [|c s IH]; [reflexivity|].
  cbn [lstrip]. destruct (is_space c) eqn:E.
  - rewrite (split_at_first_cons _ _ _ (strip_prefix_fence_space c s E)), IH.
    destruct (split_at_first fence s) as [[a b]|]; [|reflexivity].
    simpl. now rewrite E.
  - destruct (split_at_first fence (c :: s)) as [[a b]|] eqn:S; [|reflexivity].
    f_equal. f_equal. apply split_at_first_app in S.
    destruct a as [|d a]; [reflexivity|].
    simpl in S. inversion S; subst d. simpl. now rewrite E.
Qed.

(** A text that starts, after its spaces, with a fence has its first fence
    right after those spaces. *)
Lemma split_fence_after_spaces (s : str) :
  startswith (lstrip s) fence = true ->
  exists a b, split_at_first fence s = Some (a, b) /\ rstrip a = [].
Proof.
  induction s as [|c s IH]; cbn [lstrip]; [discriminate|].
  destruct (is_space c) eqn:E; intro H.
  - destruct (IH H) as (a & b & S & R).
    exists (c :: a), b.
    rewrite (split_at_first_cons _ _ _ (strip_prefix_fence_space c s E)), S.
    split; [reflexivity|]. now rewrite rstrip_cons, R, E.
  - unfold startswith in H.
    destruct (strip_prefix fence (c :: s)) as [rest|] eqn:P; [|discriminate].
    exists [], rest. split; [|reflexivity].
    unfold split_at_first. destruct s; now rewrite P.
Qed.

(** ** The two repetitions *)

Lemma star_greedy_ext {A} (p q : char -> bool) (k l : str -> option A) (s : str) :
  (forall c, p c = q c) -> (forall t, k t = l t) ->
  star_greedy p k s = star_greedy q l s.
Proof.
  intros Hp Hk. induction s as [|c s IH]; simpl; auto.
  rewrite Hp, IH, Hk. reflexivity.
Qed.

Lemma star_lazy_ext {A} (p q : char -> bool) (k l : str -> option A) (s : str) :
  (forall c, p c = q c) -> (forall t, k t = l t) ->
  star_lazy p k s = star_lazy q l s.
Proof.
  intros Hp Hk. induction s as [|c s IH]; simpl; rewrite Hk; auto.
  now rewrite Hp, IH.
Qed.

(** A greedy run of spaces ends after the last space, when a continuation
    that fails there also fails earlier in the run. *)
Lemma star_greedy_spaces {A} (k : str -> option A) (s : str) :
  (forall t, k (lstrip t) = None -> k t = None) ->
  star_greedy is_space k s = k (lstrip s).
Proof.
  intro Hk. induction s as [|c s IH]; [reflexivity|]. simpl.
  destruct (is_space c) eqn:E; [|reflexivity].
  rewrite IH. destruct (k (lstrip s)) eqn:K; [reflexivity|]. simpl.
  apply Hk. simpl. now rewrite E.
Qed.

(** [\s*```] at the head of [s]. *)
Lemma spaces_then_fence {A} (v : A) (s : str) :
  star_greedy is_space
    (fun t => match strip_prefix fence t with Some _ => Some v | None => None end) s
  = if startswith (lstrip s) fence then Some v else None.
Proof.
  rewrite star_greedy_spaces.
  - unfold startswith. now destruct (strip_prefix fence (lstrip s)).
  - intros t H. destruct t as [|c t]; [exact H|].
    simpl in H. destruct (is_space c) eqn:E; [|exact H].
    now rewrite (strip_prefix_fence_space c t E).
Qed.

(** [([\s\S]*?)\s*```]: the group stops at the first point from which only
    spaces separate it from a fence; that is the text before the first fence,
    trimmed on the right. [pre] is what the matcher has already put in the
    group. *)
Lemma lazy_group_to_fence (p : char -> bool) (pre s : str) :
  (forall c, p c = true) ->
  star_lazy p
    (fun t =>
       if startswith (lstrip t) fence
       then Some [(1, firstn (length (pre ++ s) - length t) (pre ++ s))]
       else None) s
  = match split_at_first fence s with
    | Some (inner, _) => Some [(1, pre ++ rstrip inner)]
    | None => None
    end.
Proof.
  intro Hp. revert pre. induction s as [|c s IH]; intro pre.
  - reflexivity.
  - cbn [star_lazy]. destruct (startswith (lstrip (c :: s)) fence) eqn:F.
    + destruct (split_fence_after_spaces _ F) as (a & b & S & R).
      rewrite S, R, app_nil_r. f_equal. f_equal. f_equal.
      rewrite length_app.
      replace (length pre + length (c :: s) - length (c :: s)) with (length pre) by lia.
      now rewrite firstn_app, Nat.sub_diag, firstn_all, app_nil_r.
    + rewrite Hp.
      replace (pre ++ c :: s) with ((pre ++ [c]) ++ s) by now rewrite <- app_assoc.
      rewrite IH.
      assert (P : strip_prefix fence (c :: s) = None).
      { destruct (strip_prefix fence (c :: s)) as [rest|] eqn:P; [|reflexivity].
        unfold startswith in F.
        now rewrite (strip_prefix_fence_lstrip _ _ P), P in F. }
      rewrite (split_at_first_cons _ _ _ P).
      destruct (split_at_first fence s) as [[a b]|] eqn:S; [|reflexivity].
      rewrite <- app_assoc. f_equal. f_equal. f_equal. simpl.
      rewrite rstrip_cons. destruct (rstrip a) eqn:R; [|reflexivity].
      destruct (is_space c) eqn:E; [|reflexivity].
      exfalso. apply rstrip_nil_iff in R.
      apply split_at_first_app in S. subst s.
      cbn [lstrip] in F. rewrite E, lstrip_app, R in F.
      unfold startswith in F.
      rewrite (strip_prefix_fence_lstrip _ _ (strip_prefix_refl fence b)) in F.
      now rewrite strip_prefix_refl in F.
Qed.

Lemma block_tail_eq (s : str) :
  block_tail s =
  match split_at_first fence s with
  | Some (inner, _) => Some [(1, rstrip inner)]
  | None => None
  end.
Proof.
  unfold block_tail.
  pose proof (lazy_group_to_fence (fun c => is_space c || negb (is_space c)) [] s
                (fun c => orb_negb_r (is_space c))) as L.
  cbn [app] in L. etransitivity; [|exact L].
  apply star_lazy_ext; [reflexivity|]. intro t.
  rewrite <- spaces_then_fence. now apply star_greedy_ext.
Qed.

Lemma untag_no_fence (after : str) :
  split_at_first fence (untag after) = None <-> split_at_first fence after = None.
Proof.
  unfold untag. destruct (strip_prefix (py "json") after) as [body|] eqn:E;
    [|reflexivity].
  apply strip_prefix_app in E. subst after.
  cbn [py list_ascii_of_string List.map app].
  repeat (rewrite split_at_first_cons by reflexivity).
  now destruct (split_at_first fence body) as [[a b]|].
Qed.

Lemma untag_lstrip (after body : str) :
  strip_prefix (py "json") after = Some body -> lstrip after = after.
Proof.
  intro E. apply strip_prefix_app in E. now subst after.
Qed.

(** [code_block_re] at the head of [s]: an opening fence, then the text up to
    the next fence, trimmed. *)
Lemma match_here_code_block (s : str) :
  match_here code_block_re s =
  match strip_prefix fence s with
  | None => None
  | Some after =>
      match split_at_first fence (untag after) with
      | Some (inner, _) => Some [(1, strip inner)]
      | None => None
      end
  end.
Proof.
  unfold match_here, code_block_re. cbn [rmatch cset_mem].
  destruct (strip_prefix fence s) as [after|]; [|reflexivity].
  fold (block_tail).
  assert (G : forall x, star_greedy (fun c => is_space c) block_tail x =
                        match split_at_first fence x with
                        | Some (inner, _) => Some [(1, strip inner)]
                        | None => None
                        end).
  { intro x. change (fun c => is_space c) with is_space.
    rewrite star_greedy_spaces.
    - rewrite block_tail_eq, split_fence_lstrip.
      now destruct (split_at_first fence x) as [[a b]|].
    - intros t. rewrite !block_tail_eq, split_fence_lstrip.
      now destruct (split_at_first fence t) as [[a b]|]. }
  change (fun s1 => star_lazy _ _ s1) with block_tail.
  unfold untag. destruct (strip_prefix (py "json") after) as [body|] eqn:J.
  - rewrite !G. destruct (split_at_first fence body) as [[a b]|] eqn:S; [reflexivity|].
    simpl. assert (N : split_at_first fence after = None).
    { apply (untag_no_fence after). unfold untag. now rewrite J. }
    now rewrite N.
  - simpl. apply G.
Qed.

Lemma fence_nonempty : fence <> [].
Proof. discriminate. Qed.

(** Once the text after some point holds no fence, no fenced block starts at
    or after that point. *)
Lemma re_search_code_block_none (s : str) :
  split_at_first fence (skipn 3 s) = None ->
  re_search code_block_re s = None.
Proof.
  induction s as [|c s IH]; intro H.
  - reflexivity.
  - assert (T : re_search code_block_re s = None).
    { apply IH. apply (split_at_first_tl fence _ fence_nonempty) in H.
      destruct s as [|c1 [|c2 [|c3 s]]]; auto. }
    cbn [re_search]. rewrite match_here_code_block.
    destruct (strip_prefix fence (c :: s)) as [after|] eqn:P; [|exact T].
    pose proof (strip_prefix_app _ _ _ P) as E. rewrite E in H.
    change (skipn 3 (fence ++ after)) with after in H.
    apply (untag_no_fence after) in H. now rewrite H.
Qed.

(** [re.search(code_block_re, text)] finds the fenced block of the
    specification, and group 1 is its inner text, already trimmed. *)
Lemma re_search_code_block (s : str) :
  re_search code_block_re s =
  match fenced_block s with
  | Some inner => Some [(1, inner)]
  | None => None
  end.
Proof.
  unfold fenced_block. induction s as [|c s IH]; [reflexivity|].
  cbn [re_search]. rewrite match_here_code_block.
  destruct (strip_prefix fence (c :: s)) as [after|] eqn:P.
  - assert (S0 : split_at_first fence (c :: s) = Some ([], after)).
    { cbn [split_at_first]. now rewrite P. }
    rewrite S0.
    destruct (split_at_first fence (untag after)) as [[a b]|] eqn:S; [reflexivity|].
    apply re_search_code_block_none.
    apply (untag_no_fence after) in S.
    pose proof (strip_prefix_app _ _ _ P) as E.
    apply (split_at_first_tl fence _ fence_nonempty) in S.
    destruct s as [|c1 [|c2 s]]; try discriminate.
    inversion E; subst. exact S.
  - rewrite IH, (split_at_first_cons _ _ _ P).
    now destruct (split_at_first fence s) as [[a b]|].
Qed.

(** ** The bracket pattern *)

(** [.*?\]]: the group runs to the first closing bracket. [pre] is what the
    matcher has already put in the group. *)
Lemma lazy_group_to_bracket (pre s : str) :
  star_lazy (fun _ => true)
    (fun t =>
       match t with
       | [] => None
       | c :: t' =>
           if (chr "]" =? c)%N
           then Some [(1, firstn (length (pre ++ s) - length t') (pre ++ s))]
           else None
       end) s
  = match split_at_first (py "]") s with
    | Some (inner, _) => Some [(1, pre ++ inner ++ py "]")]
    | None => None
    end.
Proof.
  revert pre. induction s as [|d s IH]; intro pre; [reflexivity|].
  cbn [star_lazy split_at_first].
  change (strip_prefix (py "]") (d :: s)) with
    (if (chr "]" =? d)%N then Some s else None).
  destruct (N.eqb_spec (chr "]") d) as [E|E].
  - subst d. f_equal. f_equal. f_equal.
    change (pre ++ chr "]" :: s) with (pre ++ py "]" ++ s).
    rewrite app_assoc, length_app.
    replace (length (pre ++ py "]") + length s - length s)
      with (length (pre ++ py "]")) by lia.
    now rewrite firstn_app, Nat.sub_diag, firstn_all, app_nil_r.
  - replace (pre ++ d :: s) with ((pre ++ [d]) ++ s) by now rewrite <- app_assoc.
    rewrite IH.
    destruct (split_at_first (py "]") s) as [[a b]|]; [|reflexivity].
    now rewrite <- app_assoc.
Qed.

Lemma match_here_list (s : str) :
  match_here list_re s =
  match strip_prefix (py "[") s with
  | None => None
  | Some after =>
      match split_at_first (py "]") after with
      | Some (inner, _) => Some [(1, py "[" ++ inner ++ py "]")]
      | None => None
      end
  end.
Proof.
  unfold match_here, list_re. cbn [rmatch cset_mem].
  destruct s as [|c s]; [reflexivity|].
  change (strip_prefix (py "[") (c :: s)) with
    (if (chr "[" =? c)%N then Some s else None).
  destruct (N.eqb_spec (chr "[") c) as [E|E]; [|reflexivity]. subst c.
  exact (lazy_group_to_bracket (py "[") s).
Qed.

Lemma bracket_nonempty : py "]" <> [].
Proof. discriminate. Qed.

Lemma re_search_list_none (s : str) :
  split_at_first (py "]") (tl s) = None -> re_search list_re s = None.
Proof.
  induction s as [|c s IH]; intro H; [reflexivity|].
  cbn [re_search]. rewrite match_here_list.
  change (strip_prefix (py "[") (c :: s)) with
    (if (chr "[" =? c)%N then Some s else None).
  cbn [tl] in H.
  assert (T : re_search list_re s = None).
  { apply IH. now apply split_at_first_tl. }
  destruct (chr "[" =? c)%N; [|exact T]. now rewrite H.
Qed.

(** [re.search(list_re, text)] finds the bracket span of the specification. *)
Lemma re_search_list (s : str) :
  re_search list_re s =
  match bracket_span s with
  | Some span => Some [(1, span)]
  | None => None
  end.
Proof.
  unfold bracket_span. induction s as [|c s IH]; [reflexivity|].
  cbn [re_search]. rewrite match_here_list. cbn [split_at_first].
  change (strip_prefix (py "[") (c :: s)) with
    (if (chr "[" =? c)%N then Some s else None).
  destruct (chr "[" =? c)%N.
  - destruct (split_at_first (py "]") s) as [[a b]|] eqn:S; [reflexivity|].
    apply re_search_list_none. now apply split_at_first_tl.
  - rewrite IH. now destruct (split_at_first (py "[") s) as [[a b]|].
Qed.

Lemma rstrip_snoc (s : str) (c : char) :
  is_space c = false -> rstrip (s ++ [c]) = s ++ [c].
Proof.
  intro E. unfold rstrip. rewrite rev_app_distr. simpl. rewrite E.
  simpl. now rewrite rev_involutive.
Qed.

(** A span in brackets has nothing to trim. *)
Lemma strip_bracketed (inner : str) :
  strip (py "[" ++ inner ++ py "]") = py "[" ++ inner ++ py "]".
Proof.
  unfold strip. change (lstrip (py "[" ++ inner ++ py "]"))
    with ((chr "[" :: inner) ++ [chr "]"]).
  now apply rstrip_snoc.
Qed.

Lemma bracket_span_stripped (s span : str) :
  bracket_span s = Some span -> strip span = span.
Proof.
  unfold bracket_span.
  destruct (split_at_first (py "[") s) as [[a b]|]; [|discriminate].
  destruct (split_at_first (py "]") b) as [[inner c]|]; [|discriminate].
  intro H. inversion H. apply strip_bracketed.
Qed.

Lemma fenced_block_stripped (s inner : str) :
  fenced_block s = Some inner -> strip inner = inner.
Proof.
  unfold fenced_block.
  destruct (split_at_first fence s) as [[a b]|]; [|discriminate].
  destruct (split_at_first fence (untag b)) as [[i c]|]; [|discriminate].
  intro H. inversion H. apply strip_idem.
Qed.

(** The extractor computes what the contract describes. *)
Lemma extract_refines_spec (raw_text : str) :
  extract_json_payload raw_text = extract_spec raw_text.
Proof.
  unfold extract_json_payload, extract_spec, first_success, whole_array.
  destruct (strip raw_text) as [|c text]; [reflexivity|].
  rewrite re_search_code_block.
  destruct (fenced_block (c :: text)) as [inner|] eqn:F.
  - unfold group1_strip. simpl. now rewrite (fenced_block_stripped _ _ F).
  - cbn [orelse].
    destruct (startswith (c :: text) (py "[") && endswith (c :: text) (py "]"));
      [reflexivity|].
    cbn [orelse]. rewrite re_search_list.
    destruct (bracket_span (c :: text)) as [span|] eqn:B; [|reflexivity].
    unfold group1_strip. simpl. now rewrite (bracket_span_stripped _ _ B).
Qed.

(** ** Texts with and without blocks and spans *)

Lemma split_at_first_here (p s rest : str) :
  strip_prefix p s = Some rest -> split_at_first p s = Some ([], rest).
Proof. intro H. destruct s; simpl; now rewrite H. Qed.

Lemma app_suffix_eq (a p y r : str) :
  a ++ p ++ y = p ++ r -> exists z, r = z ++ y.
Proof.
  intro E. exists (firstn (length a) r).
  rewrite <- (firstn_skipn (length a) r) at 1. f_equal.
  assert (L : skipn (length a + length p) (a ++ p ++ y) = y).
  { rewrite app_assoc, skipn_app, length_app, Nat.sub_diag.
    rewrite skipn_all2 by (rewrite length_app; lia). reflexivity. }
  rewrite E, skipn_app in L.
  rewrite skipn_all2 in L by lia.
  replace (length a + length p - length p) with (length a) in L by lia.
  exact L.
Qed.

(** A text that holds [p] has a first occurrence of it, and what follows the
    first occurrence ends with what follows any other. *)
Lemma split_at_first_complete (p x y : str) :
  exists a b z, split_at_first p (x ++ p ++ y) = Some (a, b) /\ b = z ++ y.
Proof.
  induction x as [|c x IH].
  - exists [], y, []. split; [|reflexivity].
    apply split_at_first_here. exact (strip_prefix_refl p y).
  - destruct (strip_prefix p ((c :: x) ++ p ++ y)) as [r|] eqn:E.
    + destruct (app_suffix_eq (c :: x) p y r) as [z Hz].
      { now apply strip_prefix_app. }
      exists [], r, z. split; [now apply split_at_first_here|exact Hz].
    + destruct IH as (a & b & z & S & Hz).
      exists (c :: a), b, z. split; [|exact Hz].
      change ((c :: x) ++ p ++ y) with (c :: x ++ p ++ y) in *.
      now rewrite (split_at_first_cons _ _ _ E), S.
Qed.

Lemma bracket_span_contains (s span : str) :
  bracket_span s = Some span -> contains_span s.
Proof.
  unfold bracket_span.
  destruct (split_at_first (py "[") s) as [[a after]|] eqn:S1; [|discriminate].
  destruct (split_at_first (py "]") after) as [[b c]|] eqn:S2; [|discriminate].
  intros _. exists a, b, c.
  apply split_at_first_app in S1, S2. now subst.
Qed.

Lemma bracket_span_complete (s : str) :
  contains_span s -> bracket_span s <> None.
Proof.
  intros (a & b & c & E). subst s. unfold bracket_span.
  destruct (split_at_first_complete (py "[") a (b ++ py "]" ++ c))
    as (a' & after & z & S & Hz).
  rewrite S. subst after. rewrite app_assoc.
  destruct (split_at_first_complete (py "]") (z ++ b) c) as (i & r & _ & S' & _).
  now rewrite S'.
Qed.

Lemma untag_keeps_fence (w c : str) :
  exists w', untag (w ++ fence ++ c) = w' ++ fence ++ c.
Proof.
  unfold untag.
  destruct (strip_prefix (py "json") (w ++ fence ++ c)) as [body|] eqn:E;
    [|now exists w].
  change (py "json") with [chr "j"; chr "s"; chr "o"; chr "n"] in E.
  rewrite fence_chars in E.
  destruct w as [|w1 [|w2 [|w3 [|w4 w]]]]; cbn [strip_prefix app] in E;
    repeat match type of E with
           | context [N.eqb ?x ?y] =>
               first [ is_var y; destruct (N.eqb x y)
                     | let v := eval vm_compute in (N.eqb x y) in
                       change (N.eqb x y) with v in E; cbv iota in E ]
           end; try discriminate.
  exists w. now inversion E.
Qed.

Lemma fenced_block_contains (s inner : str) :
  fenced_block s = Some inner -> contains_block s.
Proof.
  unfold fenced_block.
  destruct (split_at_first fence s) as [[a after]|] eqn:S1; [|discriminate].
  destruct (split_at_first fence (untag after)) as [[b c]|] eqn:S2; [|discriminate].
  intros _. apply split_at_first_app in S1, S2. subst s.
  unfold untag in S2.
  destruct (strip_prefix (py "json") after) as [body|] eqn:J.
  - apply strip_prefix_app in J. subst.
    exists a, (py "json" ++ b), c. now rewrite <- !app_assoc.
  - subst. now exists a, b, c.
Qed.

Lemma fenced_block_complete (s : str) :
  contains_block s -> fenced_block s <> None.
Proof.
  intros (a & b & c & E). subst s. unfold fenced_block.
  destruct (split_at_first_complete fence a (b ++ fence ++ c))
    as (a' & after & z & S & Hz).
  rewrite S. subst after. rewrite app_assoc.
  destruct (untag_keeps_fence (z ++ b) c) as [w' U]. rewrite U.
  destruct (split_at_first_complete fence w' c) as (i & r & _ & S' & _).
  now rewrite S'.
Qed.

Lemma lstrip_decomp (s : str) : exists w, s = w ++ lstrip s.
Proof.
  induction s as [|c s [w IH]]; [now exists []|]. simpl.
  destruct (is_space c); [|now exists []].
  exists (c :: w). simpl. now f_equal.
Qed.

Lemma strip_decomp (s : str) : exists w1 w2, s = w1 ++ strip s ++ w2.
Proof.
  unfold strip, rstrip.
  destruct (lstrip_decomp s) as [w1 E1].
  destruct (lstrip_decomp (rev (lstrip s))) as [w2 E2].
  exists w1, (rev w2). rewrite <- rev_app_distr, <- E2, rev_involutive.
  exact E1.
Qed.

Lemma contains_block_strip (s : str) :
  contains_block (strip s) -> contains_block s.
Proof.
  intros (a & b & c & E). destruct (strip_decomp s) as (w1 & w2 & D).
  exists (w1 ++ a), b, (c ++ w2). rewrite D, E.
  now rewrite <- !app_assoc.
Qed.

Lemma contains_span_strip (s : str) :
  contains_span (strip s) -> contains_span s.
Proof.
  intros (a & b & c & E). destruct (strip_decomp s) as (w1 & w2 & D).
  exists (w1 ++ a), b, (c ++ w2). rewrite D, E.
  now rewrite <- !app_assoc.
Qed.

Lemma whole_array_contains (text t : str) :
  whole_array text = Some t -> contains_span text.
Proof.
  unfold whole_array, startswith, endswith, startswith.
  destruct (strip_prefix (py "[") text) as [r|] eqn:P; [|discriminate].
  destruct (strip_prefix (rev (py "]")) (rev text)) as [u|] eqn:Q; [|discriminate].
  intros _. apply strip_prefix_app in P, Q.
  assert (E : text = rev u ++ py "]").
  { rewrite <- (rev_involutive text), Q, rev_app_distr. reflexivity. }
  destruct (rev u) as [|x y] eqn:R.
  - rewrite E in P. discriminate P.
  - exists [], y, []. rewrite E in P. inversion P. subst x.
    rewrite E. now rewrite app_nil_r.
Qed.

Lemma split_fence_untag (after inner post : str) :
  split_at_first fence after = Some (inner, post) ->
  split_at_first fence (untag after) = Some (untag inner, post).
Proof.
  intro H. unfold untag.
  destruct (strip_prefix (py "json") after) as [body|] eqn:J.
  - apply strip_prefix_app in J. subst after.
    change (py "json" ++ body)
      with (chr "j" :: chr "s" :: chr "o" :: chr "n" :: body) in H.
    repeat (rewrite split_at_first_cons in H by reflexivity).
    destruct (split_at_first fence body) as [[a b]|]; [|discriminate].
    inversion H; subst. reflexivity.
  - destruct (strip_prefix (py "json") inner) as [r|] eqn:I; [|exact H].
    apply strip_prefix_app in I. apply split_at_first_app in H. subst.
    rewrite <- app_assoc, strip_prefix_refl in J. discriminate.
Qed.

Lemma fenced_block_of_splits (text pre after inner post : str) :
  split_at_first fence text = Some (pre, after) ->
  split_at_first fence after = Some (inner, post) ->
  fenced_block text = Some (strip (untag inner)).
Proof.
  intros S1 S2. unfold fenced_block.
  now rewrite S1, (split_fence_untag _ _ _ S2).
Qed.

(** The extractor, strategy by strategy. *)
Lemma extract_cases (raw_text : str) :
  extract_json_payload raw_text =
    match strip raw_text with
    | [] => Raise EmptyResponse
    | c :: t =>
        match fenced_block (c :: t) with
        | Some inner => Return inner
        | None =>
            match whole_array (c :: t) with
            | Some whole => Return whole
            | None =>
                match bracket_span (c :: t) with
                | Some span => Return span
                | None => Raise (NoJsonFound raw_text)
                end
            end
        end
    end.
Proof.
  rewrite extract_refines_spec. unfold extract_spec, first_success.
  destruct (strip raw_text) as [|c t]; [reflexivity|].
  destruct (fenced_block (c :: t)); [reflexivity|].
  destruct (whole_array (c :: t)); [reflexivity|].
  now destruct (bracket_span (c :: t)).
Qed.

Lemma extract_fenced (raw_text inner : str) :
  fenced_block (strip raw_text) = Some inner ->
  extract_json_payload raw_text = Return inner.
Proof.
  intro F. rewrite extract_cases.
  destruct (strip raw_text) as [|c t]; [discriminate F|].
  now rewrite F.
Qed.

(** The extractor returns, or raises a [ValueError]. *)
Lemma extract_returns_or_ValueError (raw_text : str) :
  (exists payload, extract_json_payload raw_text = Return payload)
  \/ (exists msg, extract_json_payload raw_text = Raise (ValueError msg)).
Proof.
  rewrite extract_cases. destruct (strip raw_text) as [|c t]; [right; now eexists|].
  destruct (fenced_block (c :: t)); [left; now eexists|].
  destruct (whole_array (c :: t)); [left; now eexists|].
  destruct (bracket_span (c :: t)); [left; now eexists|right; now eexists].
Qed.

(* ================================================================== *)
(** * The claims about the extractor *)

(** C3. [extract_json_payload] tries three strategies on the trimmed text, in
    this order, and returns the result of the first that succeeds: the inner
    text of the first fenced block (after the fence and an optional [json]
    tag, up to the next fence), trimmed; the trimmed text itself when it
    starts with [[] and ends with []]; the span from the first [[] to the
    first []] after it, line ends included. A fenced block therefore wins
    over the other two. When the trimmed text is empty no strategy is tried,
    and when none succeeds the error carries the head of the input. *)
Theorem extract_tries_three_strategies_in_order (raw_text : str) :
  extract_json_payload raw_text =
    match strip raw_text with
    | [] => Raise EmptyResponse
    | c :: t =>
        match fenced_block (c :: t) with
        | Some inner => Return inner
        | None =>
            match whole_array (c :: t) with
            | Some whole => Return whole
            | None =>
                match bracket_span (c :: t) with
                | Some span => Return span
                | None => Raise (NoJsonFound raw_text)
                end
            end
        end
    end
  /\ (forall inner,
        fenced_block (strip raw_text) = Some inner ->
        extract_json_payload raw_text = Return inner).
Proof.
  split; [apply extract_cases|apply extract_fenced].
Qed.

(** The scenario of the specification: a fenced block inside prose, which
    itself holds brackets. *)
Lemma extract_tries_three_strategies_in_order_witness :
  extract_json_payload
    (py "Here: ```json" ++ nl ++ py "[{" ++ dq ++ py "point" ++ dq
     ++ py ":[500,500]," ++ dq ++ py "label" ++ dq ++ py ":" ++ dq ++ py "cup"
     ++ dq ++ py "}]" ++ nl ++ py "``` thanks")
  = Return (py "[{" ++ dq ++ py "point" ++ dq ++ py ":[500,500]," ++ dq
            ++ py "label" ++ dq ++ py ":" ++ dq ++ py "cup" ++ dq ++ py "}]").
Proof.
  apply (proj2 (extract_tries_three_strategies_in_order _)).
  vm_compute. reflexivity.
Defined.

(** C4, as the code has it. A text that is not empty once trimmed, and that
    holds neither a fenced block nor a [[] followed later by a []], makes
    [extract_json_payload] raise NoJsonFound, which carries the first 100
    characters of the original text, or all of it when it is shorter. And on
    every text the extractor returns or raises a [ValueError], nothing else. *)
Theorem no_block_no_span_raises_NoJsonFound (raw_text : str) :
  ((exists payload, extract_json_payload raw_text = Return payload)
   \/ (exists msg, extract_json_payload raw_text = Raise (ValueError msg)))
  /\ (strip raw_text <> [] ->
      ~ contains_block raw_text ->
      ~ contains_span raw_text ->
      extract_json_payload raw_text = Raise (NoJsonFound raw_text)
      /\ length (firstn 100 raw_text) <= 100).
Proof.
  split; [apply extract_returns_or_ValueError|].
  intros Hne Hb Hs. split; [|apply firstn_le_length].
  rewrite extract_cases. destruct (strip raw_text) as [|c t] eqn:T; [contradiction|].
  destruct (fenced_block (c :: t)) as [x|] eqn:F.
  { exfalso. apply Hb, contains_block_strip. rewrite T.
    now apply (fenced_block_contains _ x). }
  destruct (whole_array (c :: t)) as [x|] eqn:A.
  { exfalso. apply Hs, contains_span_strip. rewrite T.
    now apply (whole_array_contains _ x). }
  destruct (bracket_span (c :: t)) as [x|] eqn:B; [|reflexivity].
  exfalso. apply Hs, contains_span_strip. rewrite T.
  now apply (bracket_span_contains _ x).
Qed.

Lemma no_block_no_span_raises_NoJsonFound_witness :
  extract_json_payload (py "I see a cup and a ball.")
  = Raise (NoJsonFound (py "I see a cup and a ball."))
  /\ length (firstn 100 (py "I see a cup and a ball.")) <= 100.
Proof.
  apply (proj2 (no_block_no_span_raises_NoJsonFound (py "I see a cup and a ball."))).
  - vm_compute. discriminate.
  - intro H. apply fenced_block_complete in H. apply H. vm_compute. reflexivity.
  - intro H. apply bracket_span_complete in H. apply H. vm_compute. reflexivity.
Defined.

(** C4 as stated fails on two kinds of text without a bracket span: a fenced
    block is returned whatever it holds, and a text of spaces only is an
    EmptyResponse, another message than NoJsonFound. *)
Lemma text_without_span_not_always_NoJsonFound :
  (~ contains_span (py "```{}```")
   /\ extract_json_payload (py "```{}```") = Return (py "{}"))
  /\ (~ contains_span (py "  ")
      /\ extract_json_payload (py "  ") = Raise EmptyResponse
      /\ EmptyResponse <> NoJsonFound (py "  ")).
Proof.
  repeat split.
  - intro H. apply bracket_span_complete in H. apply H. vm_compute. reflexivity.
  - intro H. apply bracket_span_complete in H. apply H. vm_compute. reflexivity.
  - discriminate.
Qed.

(** C10, as the code has it. Let the trimmed text hold a first fence, and
    [inner] be what stands between that fence and the next one. The extractor
    returns [inner] trimmed, after it has removed the four characters [json]
    when [inner] begins with them. So a block whose text does not begin with
    [json] comes back with its language identifier, and a block tagged
    [json5] or [jsonl] loses the [json] of its identifier. *)
Theorem fenced_block_keeps_other_tag (raw_text pre after inner post : str) :
  split_at_first fence (strip raw_text) = Some (pre, after) ->
  split_at_first fence after = Some (inner, post) ->
  extract_json_payload raw_text = Return (strip (untag inner))
  /\ (startswith inner (py "json") = false ->
      extract_json_payload raw_text = Return (strip inner)).
Proof.
  intros S1 S2.
  assert (E : extract_json_payload raw_text = Return (strip (untag inner))).
  { apply extract_fenced.
    exact (fenced_block_of_splits _ _ _ _ _ S1 S2). }
  split; [exact E|].
  intro J. rewrite E. unfold untag. unfold startswith in J.
  now destruct (strip_prefix (py "json") inner).
Qed.

(** The example of the claim: a block tagged [python]. *)
Lemma fenced_block_keeps_other_tag_witness :
  extract_json_payload (py "```python" ++ nl ++ py "[1, 2]" ++ nl ++ py "```")
  = Return (py "python" ++ nl ++ py "[1, 2]").
Proof.
  apply (proj2 (fenced_block_keeps_other_tag
                  (py "```python" ++ nl ++ py "[1, 2]" ++ nl ++ py "```")
                  [] (py "python" ++ nl ++ py "[1, 2]" ++ nl ++ py "```")
                  (py "python" ++ nl ++ py "[1, 2]" ++ nl) []
                  eq_refl eq_refl)).
  reflexivity.
Defined.

(** C10 as stated fails for an identifier that begins with [json]: the block
    is tagged [json5], which is not the tag [json], and the payload is not the
    identifier with the body. *)
Lemma json5_tag_is_cut :
  split_at_first fence (py "```json5" ++ nl ++ py "[1]" ++ nl ++ py "```")
  = Some ([], py "json5" ++ nl ++ py "[1]" ++ nl ++ py "```")
  /\ split_at_first fence (py "json5" ++ nl ++ py "[1]" ++ nl ++ py "```")
     = Some (py "json5" ++ nl ++ py "[1]" ++ nl, [])
  /\ language_tag (py "json5" ++ nl ++ py "[1]" ++ nl) = py "json5"
  /\ py "json5" <> py "json"
  /\ extract_json_payload (py "```json5" ++ nl ++ py "[1]" ++ nl ++ py "```")
     = Return (py "5" ++ nl ++ py "[1]")
  /\ py "5" ++ nl ++ py "[1]" <> strip (py "json5" ++ nl ++ py "[1]" ++ nl).
Proof.
  repeat split; try reflexivity; discriminate.
Qed.

(* ================================================================== *)
(** * The claims about the remote asset *)

Lemma str_eqb_eq (a b : str) : str_eqb a b = true <-> a = b.
Proof.
  revert b. induction a as [|x a IH]; intros [|y b]; simpl; split; intro H;
    try discriminate; try reflexivity.
  - apply andb_true_iff in H. destruct H as [H1 H2].
    apply N.eqb_eq in H1. apply IH in H2. now subst.
  - inversion H; subst. rewrite N.eqb_refl. simpl. now apply IH.
Qed.

Lemma name_differs_false (f : File) (video : UploadedFile) :
  name_differs f video = false <-> display_name f = Some (video_name video).
Proof.
  unfold name_differs. destruct (display_name f) as [d|]; split; intro H;
    try discriminate.
  - apply negb_false_iff, str_eqb_eq in H. now subst.
  - inversion H. apply negb_false_iff, str_eqb_eq. reflexivity.
Qed.

Lemma name_differs_true (f : File) (video : UploadedFile) :
  display_name f <> Some (video_name video) -> name_differs f video = true.
Proof.
  intro H. destruct (name_differs f video) eqn:E; [reflexivity|].
  now apply name_differs_false in E.
Qed.

Lemma in_last1 {A : Type} (x : A) (a : list A) : In x (a ++ [x]).
Proof. apply in_or_app. right. now left. Qed.

(** The last event of a run is one of its events. *)
Ltac find_last :=
  repeat first [ apply in_last1 | left; reflexivity | right ].

Section Polling.

Context {W : Type} (client : Client W).

Lemma state_cases (f : File) :
  state f <> PROCESSING -> state f = ACTIVE \/ state f = FAILED.
Proof. destruct (state f); intro H; auto. now contradiction H. Qed.

(** The file that the loop hands on is never in state PROCESSING. *)
Lemma poll_returns_settled (fuel : nat) (w w' : W) (f f' : File) (evs : list event) :
  poll client fuel w f = Some (Return f', w', evs) -> state f' <> PROCESSING.
Proof.
  revert w f evs. induction fuel as [|fuel IH]; intros w f evs H; simpl in H.
  - destruct (state f) eqn:S; try discriminate; inversion H; subst;
      rewrite S; discriminate.
  - destruct (state f) eqn:S.
    + destruct (files_get client w (name f)) as [[g|e] w1].
      * destruct (poll client fuel w1 g) as [[[r w2] evs2]|] eqn:P; [|discriminate].
        inversion H; subst. now apply (IH _ _ _ P).
      * discriminate.
    + inversion H; subst. rewrite S. discriminate.
    + inversion H; subst. rewrite S. discriminate.
Qed.

(** Enough fuel gives the result: a loop that settles at its [k]-th poll
    returns in every run of [k] polls or more. *)
Lemma settles_poll (w : W) (f : File) (k : nat) :
  settles client w f k ->
  forall fuel, k <= fuel -> exists out, poll client fuel w f = Some out.
Proof.
  induction 1 as [w f S|w f e w' S G|w f f' w' k S G _ IH]; intros fuel L.
  - exists (Return f, w, []).
    destruct (state_cases f S) as [E|E]; destruct fuel; simpl; now rewrite E.
  - destruct fuel as [|fuel]; [lia|]. simpl. rewrite S, G.
    now exists (Raise e, w', [Sleep 5; Get (name f)]).
  - destruct fuel as [|fuel]; [lia|]. simpl. rewrite S, G.
    destruct (IH fuel) as [[[r w2] evs] P]; [lia|]. rewrite P.
    now exists (r, w2, [Sleep 5; Get (name f)] ++ evs).
Qed.

Lemma poll_settles (fuel : nat) (w : W) (f : File) :
  poll client fuel w f <> None -> exists k, k <= fuel /\ settles client w f k.
Proof.
  revert w f. induction fuel as [|fuel IH]; intros w f H; simpl in H.
  - exists 0. split; [lia|]. apply settles_now.
    destruct (state f); [now contradiction H|discriminate|discriminate].
  - destruct (state f) eqn:St.
    + destruct (files_get client w (name f)) as [[g|e] w1] eqn:G.
      * destruct (IH w1 g) as (k & L & K).
        { now destruct (poll client fuel w1 g). }
        exists (S k). split; [lia|]. eapply settles_next; eassumption.
      * exists 1. split; [lia|]. eapply settles_raise; eassumption.
    + exists 0. split; [lia|]. apply settles_now. rewrite St. discriminate.
    + exists 0. split; [lia|]. apply settles_now. rewrite St. discriminate.
Qed.

End Polling.

(** C2, as the code has it. The polling loop has no timeout. It returns when
    one of its polls settles, that is answers READY or FAILED or raises: in
    every run long enough to reach that poll, and then with a file that is
    READY or FAILED, or with the error of the poll. When no poll ever settles
    the loop does not return, however long the run. *)
Theorem polling_returns_when_a_poll_settles {W : Type} (client : Client W)
    (w : W) (f : File) :
  (forall k, settles client w f k ->
     forall fuel, k <= fuel ->
     exists r w' evs,
       poll client fuel w f = Some (r, w', evs)
       /\ match r with
          | Return f' => state f' = ACTIVE \/ state f' = FAILED
          | Raise _ => True
          end)
  /\ ((forall k, ~ settles client w f k) ->
      forall fuel, poll client fuel w f = None).
Proof.
  split.
  - intros k K fuel L.
    destruct (settles_poll client w f k K fuel L) as [[[r w'] evs] P].
    exists r, w', evs. split; [exact P|].
    destruct r as [f'|e]; [|exact I].
    apply state_cases. exact (poll_returns_settled client fuel w w' f f' evs P).
  - intros N fuel. destruct (poll client fuel w f) eqn:P; [|reflexivity].
    destruct (poll_settles client fuel w f) as (k & _ & K).
    { now rewrite P. }
    now destruct (N k).
Qed.

(** Two polls answer PROCESSING and the third FAILED: three polls are enough. *)
Lemma polling_returns_when_a_poll_settles_witness :
  exists r w' evs,
    poll (scripted_client None) 3 [PROCESSING; PROCESSING; FAILED]
      (sample_file None PROCESSING) = Some (r, w', evs)
    /\ match r with
       | Return f' => state f' = ACTIVE \/ state f' = FAILED
       | Raise _ => True
       end.
Proof.
  apply (proj1 (polling_returns_when_a_poll_settles (scripted_client None)
                  [PROCESSING; PROCESSING; FAILED] (sample_file None PROCESSING)) 3).
  - eapply settles_next; [reflexivity|reflexivity|].
    eapply settles_next; [reflexivity|reflexivity|].
    eapply settles_next; [reflexivity|reflexivity|].
    apply settles_now. discriminate.
  - lia.
Defined.

(** C2 as stated fails: against a service that keeps answering PROCESSING the
    loop returns in no run, and nothing turns the overrun into an error. *)
Lemma polling_a_stuck_asset_never_returns :
  state (sample_file None PROCESSING) = PROCESSING
  /\ ~ (exists fuel out,
          poll (scripted_client None) fuel [] (sample_file None PROCESSING)
          = Some out).
Proof.
  split; [reflexivity|]. intros (fuel & out & H). revert out H.
  induction fuel as [|fuel IH]; intros out H; [discriminate H|].
  cbn [poll sample_file state scripted_client files_get name] in H.
  fold (sample_file None PROCESSING) in H.
  destruct (poll (scripted_client None) fuel [] (sample_file None PROCESSING))
    as [out'|] eqn:P; [|discriminate H].
  exact (IH out' eq_refl).
Qed.

(** C9. The polling loop never hands on a file in state PROCESSING: the file
    it returns is READY or FAILED. [upload_and_process_video] around it
    returns a READY file, or reports an error on the page and returns no
    file; it raises nothing. *)
Theorem await_ready_never_returns_processing {W : Type} (client : Client W)
    (fuel : nat) (w : W) :
  (forall f f' w' evs,
     poll client fuel w f = Some (Return f', w', evs) ->
     state f' = ACTIVE \/ state f' = FAILED)
  /\ (forall video r w' evs,
        upload_and_process_video client fuel w video = Some (r, w', evs) ->
        (exists f, r = Some f /\ state f = ACTIVE)
        \/ (r = None /\ exists msg, In (Page (st_error msg)) evs)).
Proof.
  split.
  - intros f f' w' evs P. apply state_cases.
    exact (poll_returns_settled client fuel w w' f f' evs P).
  - intros video r w' evs H. unfold upload_and_process_video in H.
    destruct (tempfile_write client w (py "." ++ file_ext video) (getvalue video))
      as [[u|e0] w0].
    + destruct (files_upload client w0 (py "." ++ file_ext video) (getvalue video))
        as [[f0|e] w1].
      * destruct (poll client fuel w1 f0) as [[[[f|e] w2] evs2]|] eqn:P;
          [| |discriminate].
        -- pose proof (poll_returns_settled client fuel w1 w2 f0 f evs2 P) as NP.
           destruct (state f) eqn:St; [now contradiction NP| |];
             injection H as <- <- <-.
           ++ left. now exists f.
           ++ right. split; [reflexivity|]. eexists. find_last.
        -- right. injection H as <- <- <-. split; [reflexivity|].
           destruct e; eexists; find_last.
      * right. injection H as <- <- <-. split; [reflexivity|].
        destruct e; eexists; find_last.
    + right. injection H as <- <- <-. split; [reflexivity|].
      destruct e0; eexists; find_last.
Qed.

(** The scenario of the specification: the upload succeeds, two polls answer
    PROCESSING, the third answers FAILED. The failure is reported and no file
    is returned. *)
Example third_poll_failed_is_reported :
  upload_and_process_video (scripted_client None) 3
    [PROCESSING; PROCESSING; FAILED] video_a1
  = Some (None, [],
          [Page (st_info (py "File upload started..."));
           Upload (py ".mp4") (getvalue video_a1);
           Page (st_info (py "File uploaded. State: PROCESSING. Waiting for processing..."));
           Sleep 5; Get (py "files/abc123");
           Sleep 5; Get (py "files/abc123");
           Sleep 5; Get (py "files/abc123");
           Page (st_error (py "Video processing failed on Gemini service: files/abc123"))]).
Proof. reflexivity. Qed.

Lemma await_ready_never_returns_processing_witness :
  state (sample_file None FAILED) = ACTIVE \/ state (sample_file None FAILED) = FAILED.
Proof.
  apply (proj1 (await_ready_never_returns_processing (scripted_client None) 3
                  [PROCESSING; PROCESSING; FAILED])
           (sample_file None PROCESSING) (sample_file None FAILED) []
           [Sleep 5; Get (py "files/abc123");
            Sleep 5; Get (py "files/abc123");
            Sleep 5; Get (py "files/abc123")]).
  reflexivity.
Defined.

(** An upload that goes through returns, and its run begins with the notice
    and the upload of the content of the file. *)
Lemma upload_through {W : Type} (client : Client W) (fuel : nat) (w : W)
    (video : UploadedFile) :
  upload_goes_through client fuel w video ->
  exists slot w' rest,
    upload_and_process_video client fuel w video
    = Some (slot, w',
            Page (st_info (py "File upload started..."))
            :: Upload (py "." ++ file_ext video) (getvalue video)
            :: rest).
Proof.
  intros [u w0 e w1 T U|u w0 f w1 k T U K L];
    unfold upload_and_process_video; rewrite T, U.
  - exists None, w1, [upload_failed e]. reflexivity.
  - destruct (settles_poll client w1 f k K fuel L) as [[[r w2] evs] P].
    rewrite P. destruct r as [g|e].
    + destruct (state g); eexists; eexists; eexists; reflexivity.
    + eexists; eexists; eexists; reflexivity.
Qed.



(** The replacement of the asset of the slot: the delete, whose result is
    dropped, and then the upload from the state that the delete leaves. *)
Lemma replacement_run {W : Type} (client : Client W) (fuel : nat) (w w1 : W)
    (previous : File) (video : UploadedFile) (deleted : result unit) :
  display_name previous <> Some (video_name video) ->
  files_delete client w (name previous) = (deleted, w1) ->
  main_upload client fuel w (Some previous) (Some video)
  = match upload_and_process_video client fuel w1 video with
    | Some (slot, w2, evs) => Some (slot, w2, Delete (name previous) :: evs)
    | None => None
    end.
Proof.
  intros H D. unfold main_upload.
  now rewrite (name_differs_true previous video H), D.
Qed.

(** C5, against the code. The guard of the upload section compares the name
    of the submitted file with the display name of the stored asset, but the
    upload hands the service a temporary file and no display name, so the
    service cannot name the asset after the file. Against a service that
    leaves the display name unset, a first submission of [a.mp4] stores an
    asset, and the same submission again, content unchanged, deletes that
    asset and uploads the file a second time: it is no no-op. *)
Theorem resubmission_uploads_again :
  main_upload (scripted_client None) 1 [ACTIVE; ACTIVE] None (Some video_a1)
  = Some (Some (sample_file None ACTIVE), [ACTIVE],
          [Page (st_info (py "File upload started..."));
           Upload (py ".mp4") (getvalue video_a1);
           Page (st_info (py "File uploaded. State: PROCESSING. Waiting for processing..."));
           Sleep 5; Get (py "files/abc123");
           Page (st_success (py "Video ready for analysis: files/abc123"))])
  /\ main_upload (scripted_client None) 1 [ACTIVE]
       (Some (sample_file None ACTIVE)) (Some video_a1)
     = Some (Some (sample_file None ACTIVE), [],
             Delete (py "files/abc123")
             :: [Page (st_info (py "File upload started..."));
                Upload (py ".mp4") (getvalue video_a1);
                Page (st_info (py "File uploaded. State: PROCESSING. Waiting for processing..."));
                Sleep 5; Get (py "files/abc123");
                Page (st_success (py "Video ready for analysis: files/abc123"))]).
Proof. split; reflexivity. Qed.

(** A first submission of [a.mp4] to a service that gives the asset the
    display name [a.mp4]. *)
Example first_submission_uploads :
  main_upload (scripted_client (Some (py "a.mp4"))) 1 [ACTIVE] None (Some video_a1)
  = Some (Some (sample_file (Some (py "a.mp4")) ACTIVE), [],
          [Page (st_info (py "File upload started..."));
           Upload (py ".mp4") (getvalue video_a1);
           Page (st_info (py "File uploaded. State: PROCESSING. Waiting for processing..."));
           Sleep 5; Get (py "files/abc123");
           Page (st_success (py "Video ready for analysis: files/abc123"))]).
Proof. reflexivity. Qed.

(** The same when the service names the asset after the file it was sent,
    the temporary file: [a.mp4] submitted again is uploaded again. *)
Example resubmission_under_the_temporary_name :
  main_upload (scripted_client (Some (py "tmpk3v9x2.mp4"))) 1 [ACTIVE]
    (Some (sample_file (Some (py "tmpk3v9x2.mp4")) ACTIVE)) (Some video_a1)
  = Some (Some (sample_file (Some (py "tmpk3v9x2.mp4")) ACTIVE), [],
          [Delete (py "files/abc123");
           Page (st_info (py "File upload started..."));
           Upload (py ".mp4") (getvalue video_a1);
           Page (st_info (py "File uploaded. State: PROCESSING. Waiting for processing..."));
           Sleep 5; Get (py "files/abc123");
           Page (st_success (py "Video ready for analysis: files/abc123"))]).
Proof. reflexivity. Qed.

(** [b.mov] replaces [a.mp4] on a machine whose disk is full: the asset of
    the slot is deleted, nothing is uploaded, and the slot is left empty. *)
Example replacement_on_a_full_disk :
  main_upload (full_disk_client (Some (py "a.mp4"))) 1 [ACTIVE]
    (Some (sample_file (Some (py "a.mp4")) ACTIVE)) (Some video_b)
  = Some (None, [ACTIVE],
          [Delete (py "files/abc123");
           Page (st_error (py "An unexpected error occurred: [Errno 28] No space left on device"))]).
Proof. reflexivity. Qed.




(** C8. When the slot holds an asset of another display name, the delete of
    that asset is the first call, before the upload, and what the delete
    returns or raises has no part in what follows: the run is the run of the
    upload from the state that the delete leaves, with the delete in front.
    So when that upload goes through (the temporary file is written, and the
    polling settles within the run), the run returns, and it has deleted
    first and uploaded the new file after, also when the delete raised. *)
Theorem replaced_asset_is_deleted_first {W : Type} (client : Client W)
    (fuel : nat) (w w1 : W) (previous : File) (video : UploadedFile)
    (deleted : result unit) :
  display_name previous <> Some (video_name video) ->
  files_delete client w (name previous) = (deleted, w1) ->
  main_upload client fuel w (Some previous) (Some video)
  = match upload_and_process_video client fuel w1 video with
    | Some (slot, w2, evs) => Some (slot, w2, Delete (name previous) :: evs)
    | None => None
    end
  /\ (upload_goes_through client fuel w1 video ->
      exists slot w' rest,
        main_upload client fuel w (Some previous) (Some video)
        = Some (slot, w',
                Delete (name previous)
                :: Page (st_info (py "File upload started..."))
                :: Upload (py "." ++ file_ext video) (getvalue video)
                :: rest)).
Proof.
  intros H D.
  pose proof (replacement_run client fuel w w1 previous video deleted H D) as R.
  split; [exact R|].
  intro G. destruct (upload_through client fuel w1 video G) as (slot & w' & rest & U).
  rewrite R, U. now exists slot, w', rest.
Qed.

(** [b.mov] replaces [a.mp4], and the service refuses the delete. *)
Lemma replaced_asset_is_deleted_first_witness :
  exists slot w' rest,
    main_upload (scripted_client (Some (py "a.mp4"))) 1 [ACTIVE]
      (Some (sample_file (Some (py "a.mp4")) ACTIVE)) (Some video_b)
    = Some (slot, w',
            Delete (name (sample_file (Some (py "a.mp4")) ACTIVE))
            :: Page (st_info (py "File upload started..."))
            :: Upload (py "." ++ file_ext video_b) (getvalue video_b)
            :: rest).
Proof.
  apply (proj2 (replaced_asset_is_deleted_first
                  (scripted_client (Some (py "a.mp4"))) 1 [ACTIVE] [ACTIVE]
                  (sample_file (Some (py "a.mp4")) ACTIVE) video_b
                  (Raise (APIError (py "404 NOT_FOUND")))
                  ltac:(discriminate) eq_refl)).
  eapply through_polling; [reflexivity|reflexivity| |].
  - eapply settles_next; [reflexivity|reflexivity|]. apply settles_now. discriminate.
  - apply le_n.
Defined.

(* ================================================================== *)
(** * The claims about the analysis *)

(** C1, as the code has it. The structured branch applies no cap. When the
    extractor returns a payload and the decoder makes an array of it, the
    page shows that array whole, all its items in their order, with the
    payload as code below it and without any diagnostic. The limit of ten
    items stands in the wording of the detection prompt only. *)
Theorem structured_result_is_shown_whole (loads : str -> result json)
    (text raw_json : str) (items : list json) :
  extract_json_payload text = Return raw_json ->
  loads raw_json = Return (JArray items) ->
  run_analysis loads Structured_Detection (Return text)
  = result_header ++ [st_json (JArray items); st_code raw_json (Some (py "json"))]
  /\ shown_items (run_analysis loads Structured_Detection (Return text)) = items
  /\ diagnostics (run_analysis loads Structured_Detection (Return text)) = [].
Proof.
  intros E L.
  assert (R : run_analysis loads Structured_Detection (Return text)
              = result_header
                ++ [st_json (JArray items); st_code raw_json (Some (py "json"))]).
  { unfold run_analysis, structured_branch, structured_try. now rewrite E, L. }
  rewrite R. repeat split. simpl. apply app_nil_r.
Qed.

(** Twelve well-formed items: twelve are shown. *)
Lemma structured_result_is_shown_whole_witness :
  length (shown_items
            (run_analysis json_loads Structured_Detection (Return (items_text 12))))
  = 12.
Proof.
  rewrite (proj1 (proj2 (structured_result_is_shown_whole json_loads
                           (items_text 12) (items_text 12)
                           (repeat (JObject [(py "point", JArray [JInt 500; JInt 500]);
                                             (py "label", JString (py "cup"))]) 12)
                           ltac:(vm_compute; reflexivity)
                           ltac:(vm_compute; reflexivity)))).
  reflexivity.
Defined.

(** C1 as stated fails: of fifteen well-formed items, fifteen are shown, and
    there is no diagnostic. *)
Lemma fifteen_items_are_all_shown :
  extract_json_payload (items_text 15) = Return (items_text 15)
  /\ json_loads (items_text 15)
     = Return (JArray (repeat (JObject [(py "point", JArray [JInt 500; JInt 500]);
                                        (py "label", JString (py "cup"))]) 15))
  /\ length (shown_items
               (run_analysis json_loads Structured_Detection (Return (items_text 15))))
     = 15
  /\ diagnostics
       (run_analysis json_loads Structured_Detection (Return (items_text 15)))
     = [].
Proof.
  repeat split; vm_compute; reflexivity.
Qed.

(** C7. In the structured mode a failure of the extractor, which is always a
    [ValueError], and a [ValueError] of the decoder on the extracted payload,
    end in the same way: the analysis returns its page, with a warning that
    carries the reason of the failure and, below it, the text of the model as
    it came. *)
Theorem parse_failure_degrades_to_raw_text (loads : str -> result json)
    (text : str) :
  (forall e,
     extract_json_payload text = Raise e ->
     exists reason,
       e = ValueError reason
       /\ run_analysis loads Structured_Detection (Return text)
          = result_header
            ++ [st_warning
                  (py "Could not parse model output as JSON. Displaying raw text: "
                   ++ reason);
                st_markdown text])
  /\ (forall raw_json reason,
        extract_json_payload text = Return raw_json ->
        loads raw_json = Raise (ValueError reason) ->
        run_analysis loads Structured_Detection (Return text)
        = result_header
          ++ [st_warning
                (py "Could not parse model output as JSON. Displaying raw text: "
                 ++ reason);
              st_markdown text]).
Proof.
  split.
  - intros e E.
    destruct (extract_returns_or_ValueError text) as [[p P]|[m M]].
    + rewrite P in E. discriminate.
    + exists m. rewrite M in E. split; [now inversion E|].
      unfold run_analysis, structured_branch, structured_try. now rewrite M.
  - intros raw_json reason E L.
    unfold run_analysis, structured_branch, structured_try. now rewrite E, L.
Qed.

(** The payload [[1,]] is extracted and the decoder refuses it. *)
Lemma parse_failure_degrades_to_raw_text_witness :
  run_analysis json_loads Structured_Detection (Return (py "[1,]"))
  = result_header
    ++ [st_warning
          (py "Could not parse model output as JSON. Displaying raw text: "
           ++ py "JSONDecodeError");
        st_markdown (py "[1,]")].
Proof.
  apply (proj2 (parse_failure_degrades_to_raw_text json_loads (py "[1,]"))
           (py "[1,]") (py "JSONDecodeError")).
  - reflexivity.
  - reflexivity.
Defined.

(* ================================================================== *)
(** * Further properties of the extractor *)

Lemma part_of_refl (s : str) : part_of s s.
Proof. exists [], []. now rewrite app_nil_r. Qed.

Lemma part_of_trans (p q s : str) : part_of p q -> part_of q s -> part_of p s.
Proof.
  intros (a & b & E) (c & d & F). exists (c ++ a), (b ++ d).
  rewrite F, E. now rewrite <- !app_assoc.
Qed.

Lemma part_of_strip (s : str) : part_of (strip s) s.
Proof. destruct (strip_decomp s) as (w1 & w2 & E). now exists w1, w2. Qed.

(** The first occurrence is the leftmost one. *)
Lemma split_at_first_least (p s a b : str) :
  split_at_first p s = Some (a, b) ->
  forall x y, s = x ++ p ++ y -> length a <= length x.
Proof.
  revert a. induction s as [|c s IH]; intros a H x y E.
  - simpl in H. destruct (strip_prefix p []); [|discriminate].
    inversion H. simpl. lia.
  - cbn [split_at_first] in H.
    destruct (strip_prefix p (c :: s)) as [r|] eqn:P.
    + inversion H. simpl. lia.
    + destruct (split_at_first p s) as [[a' b']|] eqn:S; [|discriminate].
      inversion H; subst a b'. destruct x as [|c' x].
      * simpl in E. rewrite E, strip_prefix_refl in P. discriminate.
      * simpl in E. inversion E; subst. simpl.
        apply le_n_S. now apply (IH a' eq_refl x y).
Qed.

(** What stands before the first occurrence of [p] holds no [p]. *)
Lemma split_at_first_before (p s a b : str) :
  p <> [] -> split_at_first p s = Some (a, b) -> ~ part_of p a.
Proof.
  intros Hp H (x & y & E).
  pose proof (split_at_first_app _ _ _ _ H) as F.
  assert (L : length a <= length x).
  { apply (split_at_first_least p s a b H x (y ++ p ++ b)).
    rewrite F, E. now rewrite <- !app_assoc. }
  rewrite E, !length_app in L.
  destruct p; [now contradiction Hp|]. simpl in L. lia.
Qed.

Lemma fenced_block_part (text payload : str) :
  fenced_block text = Some payload ->
  part_of payload text /\ ~ part_of fence payload.
Proof.
  unfold fenced_block.
  destruct (split_at_first fence text) as [[a after]|] eqn:S1; [|discriminate].
  destruct (split_at_first fence (untag after)) as [[inner c]|] eqn:S2;
    [|discriminate].
  intro H. inversion H; subst payload. split.
  - apply (part_of_trans (strip inner) inner text (part_of_strip inner)).
    apply split_at_first_app in S1. apply split_at_first_app in S2.
    unfold untag in S2.
    destruct (strip_prefix (py "json") after) as [body|] eqn:J.
    + apply strip_prefix_app in J. subst.
      exists (a ++ fence ++ py "json"), (fence ++ c). now rewrite <- !app_assoc.
    + subst. exists (a ++ fence), (fence ++ c). now rewrite <- !app_assoc.
  - intro P. apply (split_at_first_before fence _ _ _ fence_nonempty S2).
    exact (part_of_trans fence (strip inner) inner P (part_of_strip inner)).
Qed.

Lemma bracket_span_shape (text span : str) :
  bracket_span text = Some span ->
  part_of span text
  /\ exists inner, span = py "[" ++ inner ++ py "]" /\ ~ In (chr "]") inner.
Proof.
  unfold bracket_span.
  destruct (split_at_first (py "[") text) as [[a after]|] eqn:S1; [|discriminate].
  destruct (split_at_first (py "]") after) as [[inner c]|] eqn:S2; [|discriminate].
  intro H. inversion H; subst span. split.
  - apply split_at_first_app in S1. apply split_at_first_app in S2. subst.
    exists a, c. cbn. now rewrite <- app_assoc.
  - exists inner. split; [reflexivity|]. intro I.
    apply (split_at_first_before (py "]") _ _ _ bracket_nonempty S2).
    destruct (in_split _ _ I) as (x & y & E). now exists x, y.
Qed.

Lemma whole_array_eq (text t : str) : whole_array text = Some t -> t = text.
Proof.
  unfold whole_array.
  destruct (startswith text (py "[") && endswith text (py "]")); [|discriminate].
  now inversion 1.
Qed.

(** X1. What the extractor returns is a contiguous part of the text it was
    given: it adds no character and joins no two places of the text. *)
Theorem payload_is_part_of_the_text (raw_text payload : str) :
  extract_json_payload raw_text = Return payload ->
  part_of payload raw_text.
Proof.
  rewrite extract_cases. intro H.
  apply (part_of_trans payload (strip raw_text) raw_text); [|apply part_of_strip].
  destruct (strip raw_text) as [|c t]; [discriminate|].
  destruct (fenced_block (c :: t)) as [x|] eqn:F.
  { inversion H; subst. now apply fenced_block_part. }
  destruct (whole_array (c :: t)) as [x|] eqn:A.
  { inversion H; subst. rewrite (whole_array_eq _ _ A). apply part_of_refl. }
  destruct (bracket_span (c :: t)) as [x|] eqn:B; [|discriminate].
  inversion H; subst. now apply bracket_span_shape.
Qed.

Lemma payload_is_part_of_the_text_witness :
  part_of (py "[1, 2]") (py "Seen: [1, 2] and more").
Proof.
  apply payload_is_part_of_the_text. reflexivity.
Defined.

(** X2. What the extractor returns is trimmed: it neither starts nor ends
    with a space, whichever strategy found it. *)
Theorem payload_is_trimmed (raw_text payload : str) :
  extract_json_payload raw_text = Return payload ->
  strip payload = payload.
Proof.
  rewrite extract_cases. intro H.
  destruct (strip raw_text) as [|c t] eqn:T; [discriminate|].
  destruct (fenced_block (c :: t)) as [x|] eqn:F.
  { inversion H; subst. now apply (fenced_block_stripped (c :: t)). }
  destruct (whole_array (c :: t)) as [x|] eqn:A.
  { inversion H; subst. rewrite (whole_array_eq _ _ A), <- T. apply strip_idem. }
  destruct (bracket_span (c :: t)) as [x|] eqn:B; [|discriminate].
  inversion H; subst. now apply (bracket_span_stripped (c :: t)).
Qed.

Lemma payload_is_trimmed_witness :
  strip (py "[1, 2]") = py "[1, 2]".
Proof.
  apply (payload_is_trimmed (py "```json" ++ nl ++ py "  [1, 2]  " ++ nl ++ py "```")).
  reflexivity.
Defined.

Lemma lstrip_spaces (w s : str) :
  forallb is_space w = true -> lstrip (w ++ s) = lstrip s.
Proof.
  induction w as [|c w IH]; [reflexivity|]. simpl.
  intro H. apply andb_true_iff in H. destruct H as [H1 H2].
  rewrite H1. now apply IH.
Qed.

Lemma rstrip_spaces (s w : str) :
  forallb is_space w = true -> rstrip (s ++ w) = rstrip s.
Proof.
  intro H. unfold rstrip. rewrite rev_app_distr, lstrip_spaces; [reflexivity|].
  apply forallb_forall. intros c I. apply in_rev in I.
  exact (proj1 (forallb_forall is_space w) H c I).
Qed.

Lemma strip_padded (w1 s w2 : str) :
  forallb is_space w1 = true -> forallb is_space w2 = true ->
  strip (w1 ++ s ++ w2) = strip s.
Proof.
  intros H1 H2. unfold strip. rewrite (lstrip_spaces w1 _ H1), lstrip_app.
  destruct (lstrip s) as [|c l] eqn:L.
  - rewrite <- (app_nil_r w2), (lstrip_spaces w2 [] H2). reflexivity.
  - now apply rstrip_spaces.
Qed.

(** X3. Spaces and line ends around the response do not change what is
    extracted: the padded text yields a payload exactly when the text does,
    and the same one. *)
Theorem padding_does_not_change_the_payload (w1 raw_text w2 payload : str) :
  forallb is_space w1 = true ->
  forallb is_space w2 = true ->
  (extract_json_payload (w1 ++ raw_text ++ w2) = Return payload
   <-> extract_json_payload raw_text = Return payload).
Proof.
  intros H1 H2. rewrite !extract_cases, (strip_padded w1 raw_text w2 H1 H2).
  destruct (strip raw_text) as [|c t]; [split; discriminate|].
  destruct (fenced_block (c :: t)); [reflexivity|].
  destruct (whole_array (c :: t)); [reflexivity|].
  destruct (bracket_span (c :: t)); [reflexivity|split; discriminate].
Qed.

Lemma padding_does_not_change_the_payload_witness :
  extract_json_payload (nl ++ py "  " ++ py "see [7]" ++ py " " ++ nl) = Return (py "[7]")
  <-> extract_json_payload (py "see [7]") = Return (py "[7]").
Proof.
  apply (padding_does_not_change_the_payload (nl ++ py "  ") (py "see [7]")
           (py " " ++ nl) (py "[7]")); reflexivity.
Defined.

(** X4. When the text holds no fenced block and is not itself in brackets,
    a payload that comes back is cut at the first closing bracket: it opens
    with [[], closes with []], and holds no other []]. An array with an array
    inside it, as the detection prompt asks for, does not come back whole
    from the middle of a sentence. *)
Theorem bare_span_stops_at_first_closing_bracket (raw_text payload : str) :
  ~ contains_block raw_text ->
  startswith (strip raw_text) (py "[") && endswith (strip raw_text) (py "]") = false ->
  extract_json_payload raw_text = Return payload ->
  exists inner, payload = py "[" ++ inner ++ py "]" /\ ~ In (chr "]") inner.
Proof.
  intros Hb Hw. rewrite extract_cases.
  destruct (strip raw_text) as [|c t] eqn:T; [discriminate|].
  destruct (fenced_block (c :: t)) as [x|] eqn:F.
  { exfalso. apply Hb, contains_block_strip. rewrite T.
    now apply (fenced_block_contains _ x). }
  unfold whole_array. rewrite Hw.
  destruct (bracket_span (c :: t)) as [x|] eqn:B; [|discriminate].
  intro H. inversion H; subst. now apply (bracket_span_shape (c :: t)).
Qed.

Lemma bare_span_stops_at_first_closing_bracket_witness :
  exists inner,
    py "[{" ++ dq ++ py "point" ++ dq ++ py ": [500, 500]"
    = py "[" ++ inner ++ py "]" /\ ~ In (chr "]") inner.
Proof.
  apply (bare_span_stops_at_first_closing_bracket
           (py "Found: [{" ++ dq ++ py "point" ++ dq ++ py ": [500, 500], "
            ++ dq ++ py "label" ++ dq ++ py ": " ++ dq ++ py "cup" ++ dq
            ++ py "}] done.")).
  - intro H. apply fenced_block_complete in H. apply H. reflexivity.
  - reflexivity.
  - reflexivity.
Defined.

(** X5. When the trimmed text holds a fenced block the extractor returns,
    and what it returns holds no fence: the payload ends before the first
    fence that follows the opening one. *)
Theorem fenced_payload_holds_no_fence (raw_text : str) :
  contains_block (strip raw_text) ->
  exists payload,
    extract_json_payload raw_text = Return payload /\ ~ part_of fence payload.
Proof.
  intro H. apply fenced_block_complete in H.
  destruct (fenced_block (strip raw_text)) as [p|] eqn:F; [|now contradiction H].
  exists p. split; [now apply extract_fenced|].
  now apply (fenced_block_part (strip raw_text)).
Qed.

Lemma fenced_payload_holds_no_fence_witness :
  exists payload,
    extract_json_payload (py "```[1]``` and ```[2]```") = Return payload
    /\ ~ part_of fence payload.
Proof.
  apply fenced_payload_holds_no_fence.
  exists [], (py "[1]"), (py " and ```[2]```"). reflexivity.
Defined.

(* ================================================================== *)
(** * Further properties of the upload *)

Lemma last_segment_spec (s : str) :
  ~ In (chr ".") (fst (last_segment s))
  /\ (snd (last_segment s) = true <-> In (chr ".") s).
Proof.
  induction s as [|c s [IH1 IH2]]; cbn [last_segment].
  - split; [intros []|]. split; [discriminate|intros []].
  - destruct (last_segment s) as [seg seen]. cbn [fst snd] in *.
    destruct seen.
    + cbn [fst snd]. split; [exact IH1|]. split; [|reflexivity].
      intros _. right. now apply IH2.
    + destruct (N.eqb_spec c (chr ".")) as [E|E]; cbn [fst snd].
      * split; [exact IH1|]. split; [|reflexivity]. intros _. now left.
      * split.
        -- intros [H|H]; [now apply E|now apply IH1].
        -- split; [discriminate|]. intros [H|H]; [now contradiction E|].
           now apply IH2.
Qed.

Lemma last_segment_app (stem e : str) :
  ~ In (chr ".") e ->
  last_segment (stem ++ chr "." :: e) = (e, true).
Proof.
  intro H.
  assert (L : last_segment e = (e, false)).
  { clear stem. induction e as [|c e IH]; [reflexivity|]. cbn [last_segment].
    rewrite IH by (intro I; apply H; now right).
    destruct (N.eqb_spec c (chr ".")) as [E|E]; [|reflexivity].
    exfalso. apply H. now left. }
  induction stem as [|c stem IH]; cbn [last_segment app].
  - rewrite L. now rewrite N.eqb_refl.
  - now rewrite IH.
Qed.

(** X6. The extension that names the temporary file: it is the text after
    the last point of the file name, and [mp4] for a name without a point;
    it holds no point itself. *)
Theorem file_ext_is_the_last_segment (video : UploadedFile) :
  ~ In (chr ".") (file_ext video)
  /\ (~ In (chr ".") (video_name video) -> file_ext video = py "mp4")
  /\ (forall stem e,
        video_name video = stem ++ py "." ++ e ->
        ~ In (chr ".") e ->
        file_ext video = e).
Proof.
  unfold file_ext. pose proof (last_segment_spec (video_name video)) as [S1 S2].
  repeat split.
  - destruct (last_segment (video_name video)) as [seg seen]. simpl in *.
    destruct seen; [exact S1|].
    intro I. repeat (destruct I as [I|I]; [discriminate I|]). exact I.
  - intro N. destruct (last_segment (video_name video)) as [seg seen]. simpl in *.
    destruct seen; [|reflexivity]. exfalso. now apply N, S2.
  - intros stem e E N. rewrite E.
    change (stem ++ py "." ++ e) with (stem ++ chr "." :: e).
    now rewrite (last_segment_app stem e N).
Qed.

Lemma file_ext_is_the_last_segment_witness :
  file_ext {| video_name := py "take.2.final.webm"; getvalue := [] |} = py "webm".
Proof.
  apply (proj2 (proj2 (file_ext_is_the_last_segment
                         {| video_name := py "take.2.final.webm"; getvalue := [] |}))
           (py "take.2.final") (py "webm")).
  - reflexivity.
  - intro I. repeat (destruct I as [I|I]; [discriminate I|]). exact I.
Defined.

Section Upload_facts.

Context {W : Type} (client : Client W).

(** The loop pauses and polls, and does nothing else. *)
Lemma poll_events (fuel : nat) (w w' : W) (f : File) (r : result File)
    (evs : list event) :
  poll client fuel w f = Some (r, w', evs) ->
  uploads evs = [] /\ deletes evs = [] /\ verdicts evs = []
  /\ slept evs = 5 * length (gets evs).
Proof.
  revert w f evs. induction fuel as [|fuel IH]; intros w f evs H; simpl in H.
  - destruct (state f); try discriminate; inversion H; now subst.
  - destruct (state f).
    + destruct (files_get client w (name f)) as [[g|e] w1].
      * destruct (poll client fuel w1 g) as [[[r2 w2] evs2]|] eqn:P; [|discriminate].
        inversion H; subst. destruct (IH _ _ _ P) as (U & D & V & T).
        unfold uploads, deletes, verdicts, slept, gets in *.
        cbn [app filter fold_right length]. rewrite T. repeat split; auto. lia.
      * inversion H; subst. now cbn.
    + inversion H; now subst.
    + inversion H; now subst.
Qed.

(** The polls of [polls polled], counted, and the time they sleep. *)
Lemma polls_count (polled : list str) :
  length (gets (polls polled)) = length polled
  /\ slept (polls polled) = 5 * length polled.
Proof.
  induction polled as [|n l [G T]]; [now split|].
  unfold polls, gets, slept in *. cbn [flat_map app filter fold_right length].
  rewrite G, T. split; lia.
Qed.

(** A loop that settles at its [k]-th poll gives the same result in every run
    of [k] polls or more: [k] times a sleep of five seconds and then a poll,
    the first of them a poll of the file it was started on. *)
Lemma settles_run (w : W) (f : File) (k : nat) :
  settles client w f k ->
  exists r w' polled,
    (forall fuel, k <= fuel -> poll client fuel w f = Some (r, w', polls polled))
    /\ length polled = k
    /\ (0 < k -> hd_error polled = Some (name f)).
Proof.
  induction 1 as [w f St|w f e w' St G|w f f' w' k St G _ IH].
  - exists (Return f), w, []. split; [|split; [reflexivity|lia]]. intros fuel _.
    destruct (state_cases f St) as [E|E]; destruct fuel; simpl; now rewrite E.
  - exists (Raise e), w', [name f]. split; [|now split].
    intros fuel L. destruct fuel as [|fuel]; [lia|]. simpl. now rewrite St, G.
  - destruct IH as (r & w2 & polled & P & C & _).
    exists r, w2, (name f :: polled). split; [|split].
    + intros fuel L. destruct fuel as [|fuel]; [lia|]. simpl.
      rewrite St, G, (P fuel) by lia. reflexivity.
    + simpl. now rewrite C.
    + reflexivity.
Qed.

End Upload_facts.

(** X7. The loop sleeps five seconds before each poll and at no other time.
    When it settles at its [k]-th poll, every run long enough returns the
    same result, and its events are [k] times a sleep of five seconds
    followed by a poll, and nothing else, the first poll being of the file
    the loop was started on: exactly [k] polls and [5 * k] seconds of sleep.
    A file that is ready when the upload returns is not polled at all. *)
Theorem polling_sleeps_five_seconds_a_poll {W : Type} (client : Client W)
    (w : W) (f : File) (k : nat) :
  settles client w f k ->
  exists r w' polled,
    (forall fuel, k <= fuel ->
       poll client fuel w f
       = Some (r, w', flat_map (fun n => [Sleep 5; Get n]) polled))
    /\ length polled = k
    /\ (0 < k -> hd_error polled = Some (name f))
    /\ length (gets (flat_map (fun n => [Sleep 5; Get n]) polled)) = k
    /\ slept (flat_map (fun n => [Sleep 5; Get n]) polled) = 5 * k.
Proof.
  intro K. destruct (settles_run client w f k K) as (r & w' & polled & P & C & Hd).
  exists r, w', polled. destruct (polls_count polled) as [G T].
  unfold polls in *. rewrite G, T, C. repeat split; auto.
Qed.

(** Two polls: the first answers PROCESSING, the second ACTIVE. *)
Lemma polling_sleeps_five_seconds_a_poll_witness :
  exists r w' polled,
    (forall fuel, 2 <= fuel ->
       poll (scripted_client None) fuel [PROCESSING; ACTIVE]
         (sample_file None PROCESSING)
       = Some (r, w', flat_map (fun n => [Sleep 5; Get n]) polled))
    /\ length polled = 2
    /\ (0 < 2 -> hd_error polled = Some (name (sample_file None PROCESSING)))
    /\ length (gets (flat_map (fun n => [Sleep 5; Get n]) polled)) = 2
    /\ slept (flat_map (fun n => [Sleep 5; Get n]) polled) = 5 * 2.
Proof.
  apply polling_sleeps_five_seconds_a_poll.
  eapply settles_next; [reflexivity|reflexivity|].
  eapply settles_next; [reflexivity|reflexivity|].
  apply settles_now. discriminate.
Defined.

(** Filters the events of a run whose polls are [evs2], with the facts [U],
    [D], [V] about the polls. *)
Ltac sift U D V :=
  unfold uploads, deletes, verdicts in *;
  cbn [filter app]; rewrite ?filter_app, ?U, ?D, ?V; cbn [filter app].

(** A call of [upload_and_process_video] that returns has deleted nothing,
    and has uploaded the content of the file once, under the suffix of its
    name, or not at all when the temporary file could not be written. *)
Lemma upload_sends_once {W : Type} (client : Client W) (fuel : nat)
    (w w' : W) (video : UploadedFile) (r : option File) (evs : list event) :
  upload_and_process_video client fuel w video = Some (r, w', evs) ->
  uploads evs
  = match fst (tempfile_write client w (py "." ++ file_ext video) (getvalue video)) with
    | Return _ => [Upload (py "." ++ file_ext video) (getvalue video)]
    | Raise _ => []
    end
  /\ deletes evs = [].
Proof.
  unfold upload_and_process_video. intro H.
  destruct (tempfile_write client w (py "." ++ file_ext video) (getvalue video))
    as [[u|e0] w0]; cbn [fst];
    [|injection H as <- <- <-; destruct e0; now split].
  destruct (files_upload client w0 (py "." ++ file_ext video) (getvalue video))
    as [[f0|e] w1].
  - destruct (poll client fuel w1 f0) as [[[[f|e] w2] evs2]|] eqn:P;
      [| |discriminate];
      destruct (poll_events client fuel w1 w2 f0 _ evs2 P) as (U & D & _ & _).
    + destruct (state f); injection H as <- <- <-; sift U D U; now split.
    + injection H as <- <- <-. destruct e; sift U D U; now split.
  - injection H as <- <- <-. destruct e; now split.
Qed.

(** X8. A call that returns ends with one verdict on the page, and the
    verdict agrees with what is returned: a success that names the file when
    a file is returned, an error when none is. *)
Theorem upload_shows_one_verdict {W : Type} (client : Client W) (fuel : nat)
    (w w' : W) (video : UploadedFile) (r : option File) (evs : list event) :
  upload_and_process_video client fuel w video = Some (r, w', evs) ->
  match r with
  | Some f =>
      verdicts evs = [Page (st_success (py "Video ready for analysis: " ++ name f))]
  | None => exists msg, verdicts evs = [Page (st_error msg)]
  end.
Proof.
  unfold upload_and_process_video. intro H.
  destruct (tempfile_write client w (py "." ++ file_ext video) (getvalue video))
    as [[u|e0] w0];
    [|injection H as <- <- <-; destruct e0; eexists; reflexivity].
  destruct (files_upload client w0 (py "." ++ file_ext video) (getvalue video))
    as [[f0|e] w1].
  - destruct (poll client fuel w1 f0) as [[[[f|e] w2] evs2]|] eqn:P;
      [| |discriminate];
      destruct (poll_events client fuel w1 w2 f0 _ evs2 P) as (_ & _ & V & _).
    + destruct (state f); injection H as <- <- <-;
        try eexists; sift V V V; reflexivity.
    + injection H as <- <- <-. destruct e; eexists; sift V V V; reflexivity.
  - injection H as <- <- <-. destruct e; eexists; reflexivity.
Qed.

Lemma upload_shows_one_verdict_witness :
  verdicts
    [Page (st_info (py "File upload started..."));
     Upload (py ".mp4") (getvalue video_a1);
     Page (st_info (py "File uploaded. State: PROCESSING. Waiting for processing..."));
     Sleep 5; Get (py "files/abc123");
     Page (st_success (py "Video ready for analysis: files/abc123"))]
  = [Page (st_success (py "Video ready for analysis: "
                       ++ name (sample_file None ACTIVE)))].
Proof.
  apply (upload_shows_one_verdict (scripted_client None) 1 [ACTIVE] [] video_a1
           (Some (sample_file None ACTIVE))).
  reflexivity.
Defined.

(* ================================================================== *)
(** * Further properties of [main] *)

Lemma some3_inj {A B C : Type} (a a' : A) (b b' : B) (c c' : C) :
  Some (a, b, c) = Some (a', b', c') -> a = a' /\ b = b' /\ c = c'.
Proof. intro H. now inversion H. Qed.

Lemma upload_returns_ready {W : Type} (client : Client W) (fuel : nat)
    (w w' : W) (video : UploadedFile) (f : File) (evs : list event) :
  upload_and_process_video client fuel w video = Some (Some f, w', evs) ->
  state f = ACTIVE.
Proof.
  unfold upload_and_process_video.
  destruct (tempfile_write client w (py "." ++ file_ext video) (getvalue video))
    as [[u|e0] w0]; [|discriminate].
  destruct (files_upload client w0 (py "." ++ file_ext video) (getvalue video))
    as [[f0|e] w1]; [|discriminate].
  destruct (poll client fuel w1 f0) as [[[[g|e] w2] evs2]|] eqn:P;
    [| discriminate | discriminate].
  pose proof (poll_returns_settled client fuel w1 w2 f0 g evs2 P) as NP.
  destruct (state g) eqn:St; [now contradiction NP| |discriminate].
  intro H. inversion H; subst. exact St.
Qed.

Lemma main_upload_ready {W : Type} (client : Client W) (fuel : nat) (w w' : W)
    (slot slot' : option File) (video : option UploadedFile) (evs : list event) :
  slot_ready slot ->
  main_upload client fuel w slot video = Some (slot', w', evs) ->
  slot_ready slot'.
Proof.
  intros R H. unfold main_upload in H.
  destruct video as [v|]; [|now inversion H; subst].
  destruct slot as [previous|].
  - destruct (name_differs previous v); [|now inversion H; subst].
    destruct (files_delete client w (name previous)) as [d w1].
    destruct (upload_and_process_video client fuel w1 v) as [[[s w2] evs2]|] eqn:U;
      [|discriminate].
    inversion H; subst. destruct slot' as [f|]; [|exact I].
    exact (upload_returns_ready client fuel w1 w' v f evs2 U).
  - destruct slot' as [f|]; [|exact I].
    exact (upload_returns_ready client fuel w w' v f evs H).
Qed.

(** X9. The calls of one run of the upload section with a file in the
    uploader. A run that returns has deleted the asset of the slot, once,
    when the slot held an asset of another display name (or of none), and
    has deleted nothing otherwise; it has uploaded the content of the file at
    most once, and not at all when the guard kept the slot. A run whose guard
    keeps the slot returns at once, with no call. A run whose upload goes
    through (the temporary file is written, and the polling settles within
    the run) returns, and has uploaded the content of the file, once. *)
Theorem upload_section_calls {W : Type} (client : Client W) (fuel : nat)
    (w : W) (slot : option File) (video : UploadedFile) :
  (forall slot' w' evs,
     main_upload client fuel w slot (Some video) = Some (slot', w', evs) ->
     deletes evs
     = match slot with
       | Some previous =>
           if name_differs previous video then [Delete (name previous)] else []
       | None => []
       end
     /\ (uploads evs = [] \/ uploads evs = [Upload (py "." ++ file_ext video) (getvalue video)])
     /\ (uploads evs <> [] -> upload_starts_in client w slot video <> None))
  /\ (upload_starts_in client w slot video = None ->
      main_upload client fuel w slot (Some video) = Some (slot, w, []))
  /\ (forall w1,
        upload_starts_in client w slot video = Some w1 ->
        upload_goes_through client fuel w1 video ->
        exists slot' w' evs,
          main_upload client fuel w slot (Some video) = Some (slot', w', evs)
          /\ uploads evs = [Upload (py "." ++ file_ext video) (getvalue video)]).
Proof.
  assert (Once : forall w1 r w' evs,
             upload_and_process_video client fuel w1 video = Some (r, w', evs) ->
             uploads evs = [] \/ uploads evs = [Upload (py "." ++ file_ext video) (getvalue video)]).
  { intros w1 r w' evs U.
    destruct (upload_sends_once client fuel w1 w' video r evs U) as [A _].
    destruct (fst (tempfile_write client w1 (py "." ++ file_ext video) (getvalue video)));
      [now right|now left]. }
  assert (Sent : forall w1,
             upload_goes_through client fuel w1 video ->
             exists r w' evs,
               upload_and_process_video client fuel w1 video = Some (r, w', evs)
               /\ uploads evs = [Upload (py "." ++ file_ext video) (getvalue video)]).
  { intros w1 G.
    destruct (upload_through client fuel w1 video G) as (r & w' & rest & U).
    exists r, w'. eexists. split; [exact U|].
    destruct (upload_sends_once client fuel w1 w' video r _ U) as [A _].
    rewrite A. destruct G as [u w0 e w2 T _|u w0 f w2 k T _ _ _]; now rewrite T. }
  unfold main_upload, upload_starts_in. destruct slot as [previous|].
  - destruct (name_differs previous video).
    + destruct (files_delete client w (name previous)) as [d w1]. cbn [snd].
      split; [|split; [discriminate|]].
      * intros slot' w' evs H.
        destruct (upload_and_process_video client fuel w1 video)
          as [[[r w2] evs2]|] eqn:U; [|discriminate].
        apply some3_inj in H. destruct H as (_ & _ & <-).
        destruct (upload_sends_once client fuel w1 w2 video r evs2 U) as [_ B].
        pose proof (Once w1 r w2 evs2 U) as O.
        unfold uploads, deletes in *. cbn [filter]. rewrite B.
        split; [reflexivity|]. split; [exact O|discriminate].
      * intros w2 E G. injection E as <-.
        destruct (Sent w1 G) as (r & w' & evs & U & A). rewrite U.
        exists r, w'. eexists. split; [reflexivity|].
        unfold uploads in *. cbn [filter]. exact A.
    + split; [|split; [reflexivity|discriminate]].
      intros slot' w' evs H. apply some3_inj in H. destruct H as (_ & _ & <-).
      split; [reflexivity|]. split; [now left|]. intro N. now contradiction N.
  - split; [|split; [discriminate|]].
    + intros slot' w' evs H.
      destruct (upload_sends_once client fuel w w' video slot' evs H) as [_ B].
      split; [exact B|]. split; [exact (Once w slot' w' evs H)|discriminate].
    + intros w1 E G. injection E as <-. exact (Sent w G).
Qed.

(** [b.mov] replaces [a.mp4]: the upload starts in the state that the
    refused delete leaves, and goes through at the first poll. *)
Lemma upload_section_calls_witness :
  exists slot' w' evs,
    main_upload (scripted_client None) 1 [ACTIVE]
      (Some (sample_file None ACTIVE)) (Some video_b)
    = Some (slot', w', evs)
    /\ uploads evs = [Upload (py "." ++ file_ext video_b) (getvalue video_b)].
Proof.
  apply (proj2 (proj2 (upload_section_calls (scripted_client None) 1 [ACTIVE]
                         (Some (sample_file None ACTIVE)) video_b))
           [ACTIVE] eq_refl).
  eapply through_polling; [reflexivity|reflexivity| |].
  - eapply settles_next; [reflexivity|reflexivity|]. apply settles_now. discriminate.
  - apply le_n.
Defined.

Lemma model_calls_app (a b : list main_event) :
  model_calls (a ++ b) = model_calls a ++ model_calls b.
Proof. apply filter_app. Qed.

Lemma model_calls_map {A : Type} (g : A -> event) (l : list A) :
  model_calls (List.map (fun x => Did (g x)) l) = [].
Proof. induction l as [|x l IH]; [reflexivity|exact IH]. Qed.

(** X10. The slot keeps its invariant over a run of [main]: when it held
    nothing or a READY asset before the run, it holds nothing or a READY
    asset after it, whatever the inputs of the page and the answers of the
    service. An asset that failed or that is still in process is never
    stored. *)
Theorem slot_stays_ready {W : Type} (client : Client W)
    (loads : str -> result json) (generate : str -> File -> str -> result str)
    (fuel : nat) (w w' : W) (slot slot' : option File) (inp : Inputs)
    (evs : list main_event) :
  slot_ready slot ->
  main client loads generate fuel w slot inp = Some (slot', w', evs) ->
  slot_ready slot'.
Proof.
  intros R H. unfold main in H.
  destruct (uploaded_video inp) as [video|].
  - destruct (main_upload client fuel w slot (Some video))
      as [[[s w1] evs1]|] eqn:U; [|discriminate].
    pose proof (main_upload_ready client fuel w w1 slot s (Some video) evs1 R U) as R'.
    destruct s as [gemini_file|].
    + destruct (run_button inp); [destruct (user_prompt inp)|];
        apply some3_inj in H; destruct H as (<- & _ & _); exact R'.
    + apply some3_inj in H. destruct H as (<- & _ & _). exact I.
  - apply some3_inj in H. destruct H as (<- & _ & _). exact R.
Qed.

Lemma slot_stays_ready_witness :
  match main (scripted_client (Some (py "a.mp4"))) json_loads
          (fun _ _ _ => Return (py "[]")) 1 [ACTIVE] None sample_inputs with
  | Some (slot', _, _) => slot_ready slot'
  | None => True
  end.
Proof.
  destruct (main (scripted_client (Some (py "a.mp4"))) json_loads
              (fun _ _ _ => Return (py "[]")) 1 [ACTIVE] None sample_inputs)
    as [[[slot' w'] evs]|] eqn:M; [|exact I].
  exact (slot_stays_ready _ _ _ 1 [ACTIVE] w' None slot' sample_inputs evs I M).
Defined.

(** X11. The model is called at most once in a run of [main], and only when
    all of this holds: a file is in the uploader, the slot holds an asset
    after the upload section, the button was pressed, and the prompt is not
    empty. The call then carries [MODEL_ID], the prompt, the asset of the
    slot and the system instruction of the chosen mode. When the slot was
    ready before the run, the asset of every call is READY. *)
Theorem model_is_called_on_a_ready_asset {W : Type} (client : Client W)
    (loads : str -> result json) (generate : str -> File -> str -> result str)
    (fuel : nat) (w w' : W) (slot slot' : option File) (inp : Inputs)
    (evs : list main_event) :
  slot_ready slot ->
  main client loads generate fuel w slot inp = Some (slot', w', evs) ->
  model_calls evs
  = match uploaded_video inp, slot', user_prompt inp with
    | Some _, Some gemini_file, _ :: _ =>
        if run_button inp
        then [Generate MODEL_ID (user_prompt inp) gemini_file
                (system_instruction_of (analysis_mode inp))]
        else []
    | _, _, _ => []
    end
  /\ (forall model prompt file instruction,
        In (Generate model prompt file instruction) evs ->
        state file = ACTIVE).
Proof.
  intros R H.
  assert (C : model_calls evs
              = match uploaded_video inp, slot', user_prompt inp with
                | Some _, Some gemini_file, _ :: _ =>
                    if run_button inp
                    then [Generate MODEL_ID (user_prompt inp) gemini_file
                            (system_instruction_of (analysis_mode inp))]
                    else []
                | _, _, _ => []
                end
              /\ slot_ready slot').
  { unfold main in H.
    destruct (uploaded_video inp) as [video|].
    - destruct (main_upload client fuel w slot (Some video))
        as [[[s w1] evs1]|] eqn:U; [|discriminate].
      pose proof (main_upload_ready client fuel w w1 slot s (Some video) evs1 R U)
        as R'.
      destruct s as [gemini_file|].
      + destruct (run_button inp).
        * destruct (user_prompt inp) as [|c p];
            apply some3_inj in H; destruct H as (<- & <- & <-);
            (split; [|exact R']);
            rewrite !model_calls_app, (model_calls_map (fun e => e)).
          -- reflexivity.
          -- change (Generate ?m ?q ?f ?i :: ?l) with ([Generate m q f i] ++ l).
             rewrite model_calls_app, (model_calls_map Page). reflexivity.
        * apply some3_inj in H. destruct H as (<- & <- & <-). split; [|exact R'].
          rewrite !model_calls_app, (model_calls_map (fun e => e)).
          now destruct (user_prompt inp).
      + apply some3_inj in H. destruct H as (<- & <- & <-). split; [|exact I].
        now rewrite !model_calls_app, (model_calls_map (fun e => e)).
    - apply some3_inj in H. destruct H as (<- & <- & <-).
      split; [reflexivity|exact R]. }
  destruct C as [C R']. split; [exact C|].
  intros model prompt file instruction G.
  assert (G' : In (Generate model prompt file instruction) (model_calls evs)).
  { apply filter_In. now split. }
  rewrite C in G'.
  destruct (uploaded_video inp); [|contradiction].
  destruct slot' as [gemini_file|]; [|contradiction].
  destruct (user_prompt inp); [contradiction|].
  destruct (run_button inp); [|contradiction].
  destruct G' as [G'|[]]. inversion G'; subst. exact R'.
Qed.

Lemma model_is_called_on_a_ready_asset_witness :
  match main (scripted_client (Some (py "a.mp4"))) json_loads
          (fun _ _ _ => Return (py "[]")) 1 [ACTIVE] None sample_inputs with
  | Some (slot', _, evs) =>
      model_calls evs
      = match uploaded_video sample_inputs, slot', user_prompt sample_inputs with
        | Some _, Some gemini_file, _ :: _ =>
            if run_button sample_inputs
            then [Generate MODEL_ID (user_prompt sample_inputs) gemini_file
                    (system_instruction_of (analysis_mode sample_inputs))]
            else []
        | _, _, _ => []
        end
      /\ (forall model prompt file instruction,
            In (Generate model prompt file instruction) evs ->
            state file = ACTIVE)
  | None => True
  end.
Proof.
  destruct (main (scripted_client (Some (py "a.mp4"))) json_loads
              (fun _ _ _ => Return (py "[]")) 1 [ACTIVE] None sample_inputs)
    as [[[slot' w'] evs]|] eqn:M; [|exact I].
  exact (model_is_called_on_a_ready_asset _ _ _ 1 [ACTIVE] w' None slot'
           sample_inputs evs I M).
Defined.

(* ================================================================== *)
(** * Further properties of the analysis *)

(** X12. Whatever the model answers is on the page. For a decoder that
    raises no [APIError] (as [json.loads] does not), and in both modes, the
    page of a response shows the text as it came, as markdown or as code, or
    it shows the value decoded from the payload that the extractor returned,
    together with that payload as code. *)
Theorem response_is_always_shown (loads : str -> result json)
    (analysis_mode : mode) (text : str) :
  (forall p m, loads p <> Raise (APIError m)) ->
  In (st_markdown text) (run_analysis loads analysis_mode (Return text))
  \/ In (st_code text None) (run_analysis loads analysis_mode (Return text))
  \/ (exists payload v,
        extract_json_payload text = Return payload
        /\ loads payload = Return v
        /\ run_analysis loads analysis_mode (Return text)
           = result_header
             ++ [st_json v; st_code payload (Some (py "json"))]).
Proof.
  intro NA. unfold run_analysis. destruct analysis_mode.
  - left. apply in_or_app. right. now left.
  - unfold structured_branch, structured_try.
    destruct (extract_returns_or_ValueError text) as [[p P]|[m M]].
    + rewrite P. destruct (loads p) as [v|[m|m|m]] eqn:L.
      * right. right. now exists p, v.
      * left. apply in_or_app. right. right. now left.
      * now destruct (NA p m).
      * right. left. apply in_or_app. right. right. now left.
    + rewrite M. left. apply in_or_app. right. right. now left.
Qed.

Lemma json_loads_raises_ValueError (s : str) (e : exn) :
  json_loads s = Raise e -> e = ValueError (py "JSONDecodeError").
Proof.
  unfold json_loads. destruct s as [|c s]; [now inversion 1|].
  destruct (c =? 65279)%N; [now inversion 1|].
  destruct (parse_value _ _) as [[v r]|]; [|now inversion 1].
  destruct (skip_ws r); [discriminate|now inversion 1].
Qed.

Lemma response_is_always_shown_witness :
  In (st_markdown (py "[1,]"))
    (run_analysis json_loads Structured_Detection (Return (py "[1,]")))
  \/ In (st_code (py "[1,]") None)
       (run_analysis json_loads Structured_Detection (Return (py "[1,]")))
  \/ (exists payload v,
        extract_json_payload (py "[1,]") = Return payload
        /\ json_loads payload = Return v
        /\ run_analysis json_loads Structured_Detection (Return (py "[1,]"))
           = result_header
             ++ [st_json v; st_code payload (Some (py "json"))]).
Proof.
  apply response_is_always_shown.
  intros p m H. apply json_loads_raises_ValueError in H. discriminate H.
Defined.

(** X13. The page shows a decoded value in one case only: in the structured
    mode, when the extractor returns a payload and the decoder returns that
    value for it. *)
Theorem decoded_value_is_shown_iff (loads : str -> result json)
    (analysis_mode : mode) (text : str) (v : json) :
  In (st_json v) (run_analysis loads analysis_mode (Return text))
  <-> analysis_mode = Structured_Detection
      /\ exists payload,
           extract_json_payload text = Return payload
           /\ loads payload = Return v.
Proof.
  unfold run_analysis, structured_branch, structured_try. split.
  - intro H. destruct analysis_mode.
    + apply in_app_or in H. destruct H as [H|H]; simpl in H;
        repeat (destruct H as [H|H]; try discriminate H); contradiction.
    + split; [reflexivity|].
      destruct (extract_json_payload text) as [p|[m|m|m]].
      * exists p. split; [reflexivity|].
        destruct (loads p) as [v'|[m|m|m]];
          apply in_app_or in H; destruct H as [H|H]; simpl in H;
          repeat (destruct H as [H|H]; try discriminate H); try contradiction.
        now inversion H.
      * apply in_app_or in H. destruct H as [H|H]; simpl in H;
          repeat (destruct H as [H|H]; try discriminate H); contradiction.
      * apply in_app_or in H. destruct H as [H|H]; simpl in H;
          repeat (destruct H as [H|H]; try discriminate H); contradiction.
      * apply in_app_or in H. destruct H as [H|H]; simpl in H;
          repeat (destruct H as [H|H]; try discriminate H); contradiction.
  - intros [-> (p & E & L)]. rewrite E, L.
    apply in_or_app. right. now left.
Qed.

(* ================================================================== *)
(** * Properties of [get_client] and of [capture_and_process_frame] *)

Lemma mapping_has_get (key : str) (d : mapping) :
  mapping_has key d = true <-> exists v, mapping_get key d = Some v.
Proof.
  induction d as [|[k v] d IH]; simpl.
  - split; [discriminate|intros [v H]; discriminate].
  - destruct (str_eqb k key); simpl; [|exact IH].
    split; [intros _; now exists v|reflexivity].
Qed.

(** X14. [get_client] of [updatedStreamlit.py] raises no [KeyError]. With
    a secrets file in place: when the secret is stored it makes the client
    for the stored text and shows nothing, and when it is not stored it shows
    one error and stops. With no secrets file the test of the name raises
    before anything is shown, and no client is made. *)
Theorem get_client_reads_the_secret (st_secrets : option mapping) :
  (forall key, snd (get_client st_secrets) <> KeyError key)
  /\ (forall secrets k,
        st_secrets = Some secrets ->
        mapping_get GEMINI_API_KEY secrets = Some k ->
        get_client st_secrets = ([], Client_for k))
  /\ (forall secrets,
        st_secrets = Some secrets ->
        mapping_get GEMINI_API_KEY secrets = None ->
        snd (get_client st_secrets) = Stopped
        /\ length (diagnostics (fst (get_client st_secrets))) = 1)
  /\ (st_secrets = None -> get_client st_secrets = ([], SecretNotFound))
  /\ (forall k, snd (get_client st_secrets) = Client_for k ->
        exists secrets,
          st_secrets = Some secrets
          /\ mapping_get GEMINI_API_KEY secrets = Some k).
Proof.
  unfold get_client. destruct st_secrets as [secrets|].
  - destruct (mapping_has GEMINI_API_KEY secrets) eqn:H; simpl.
    + apply mapping_has_get in H. destruct H as [v G]. rewrite G.
      split; [discriminate|]. split; [|split; [|split; [discriminate|]]].
      * intros s k E M. injection E as <-. rewrite G in M. now injection M as <-.
      * intros s E M. injection E as <-. rewrite G in M. discriminate.
      * intros k E. injection E as <-. now exists secrets.
    + split; [discriminate|]. split; [|split; [|split; discriminate]].
      * intros s k E M. injection E as <-.
        assert (T : mapping_has GEMINI_API_KEY secrets = true).
        { apply mapping_has_get. now exists k. }
        rewrite T in H. discriminate.
      * intros s _ _. now split.
  - simpl. split; [discriminate|]. split; [discriminate|].
    split; [discriminate|]. split; [reflexivity|discriminate].
Qed.

(** A secrets file that stores the key after another secret. *)
Lemma get_client_reads_the_secret_witness :
  get_client (Some [(py "OTHER", py "x"); (GEMINI_API_KEY, py "AIza-secret")])
  = ([], Client_for (py "AIza-secret")).
Proof.
  apply (proj1 (proj2 (get_client_reads_the_secret
                         (Some [(py "OTHER", py "x");
                                (GEMINI_API_KEY, py "AIza-secret")])))
           [(py "OTHER", py "x"); (GEMINI_API_KEY, py "AIza-secret")]
           (py "AIza-secret") eq_refl).
  reflexivity.
Defined.

(** X15. [get_client] of [finalfront.py] never reads the text stored under
    [GEMINI_API_KEY]: the name is only tested for presence, in the
    environment and in the secrets, and the outcome is the same whatever is
    stored under it. A client is made only for a text that is not empty and
    that is stored under the name [.env] in the environment, or under the
    empty name in the secrets. With [GEMINI_API_KEY] in the environment and
    no variable named [.env], the call raises [KeyError]. *)
Theorem finalfront_get_client_ignores_the_key (environ secrets : mapping) :
  (forall v v',
     finalfront_get_client ((GEMINI_API_KEY, v) :: environ) secrets
     = finalfront_get_client ((GEMINI_API_KEY, v') :: environ) secrets)
  /\ (forall v v',
        finalfront_get_client environ ((GEMINI_API_KEY, v) :: secrets)
        = finalfront_get_client environ ((GEMINI_API_KEY, v') :: secrets))
  /\ (forall page k,
        finalfront_get_client environ secrets = (page, Client_for k) ->
        k <> []
        /\ (mapping_has GEMINI_API_KEY environ = true
            /\ mapping_get (py ".env") environ = Some k
            \/ mapping_has GEMINI_API_KEY environ = false
               /\ mapping_has GEMINI_API_KEY secrets = true
               /\ mapping_get [] secrets = Some k))
  /\ (mapping_has GEMINI_API_KEY environ = true ->
      mapping_get (py ".env") environ = None ->
      finalfront_get_client environ secrets = ([], KeyError (py ".env"))).
Proof.
  split; [|split; [|split]].
  - intros v v'. unfold finalfront_get_client.
    simpl mapping_has. simpl mapping_get. reflexivity.
  - intros v v'. unfold finalfront_get_client.
    simpl mapping_has. simpl mapping_get. reflexivity.
  - intros page k H. unfold finalfront_get_client in H.
    destruct (mapping_has GEMINI_API_KEY environ).
    + destruct (mapping_get (py ".env") environ) as [[|c x]|]; inversion H.
      split; [discriminate|]. now left.
    + destruct (mapping_has GEMINI_API_KEY secrets).
      * destruct (mapping_get [] secrets) as [[|c x]|]; inversion H.
        split; [discriminate|]. now right.
      * inversion H.
  - intros H G. unfold finalfront_get_client. now rewrite H, G.
Qed.

(** The key is set in the environment, as the docstring asks, and nothing
    else is. *)
Lemma finalfront_get_client_ignores_the_key_witness :
  finalfront_get_client [(GEMINI_API_KEY, py "AIza-secret")] []
  = ([], KeyError (py ".env")).
Proof.
  apply (proj2 (proj2 (proj2 (finalfront_get_client_ignores_the_key
                                [(GEMINI_API_KEY, py "AIza-secret")] []))));
    reflexivity.
Defined.

Lemma py_inj (a b : string) : py a = py b -> a = b.
Proof.
  unfold py. intro H.
  rewrite <- (string_of_list_ascii_of_string a), <- (string_of_list_ascii_of_string b).
  f_equal. revert H.
  generalize (list_ascii_of_string a) (list_ascii_of_string b).
  induction l as [|x l IH]; intros [|y l'] H; simpl in H; try discriminate;
    [reflexivity|].
  inversion H as [[E1 E2]]. f_equal; [|now apply IH].
  rewrite <- (ascii_N_embedding x), <- (ascii_N_embedding y). now rewrite E1.
Qed.

Lemma to_int_proper (n : Z) :
  Z.to_int n <> Decimal.Pos Decimal.Nil /\ Z.to_int n <> Decimal.Neg Decimal.Nil.
Proof.
  pose proof (DecimalZ.to_of (Z.to_int n)) as N. rewrite DecimalZ.of_to in N.
  rewrite N. destruct (Z.to_int n) as [d|d]; simpl.
  - split; [|discriminate]. intro H. inversion H as [E].
    now apply (DecimalFacts.unorm_nonnil d).
  - destruct (Decimal.nzhead d); split; discriminate.
Qed.

Lemma str_of_int_inj (a b : Z) : str_of_int a = str_of_int b -> a = b.
Proof.
  unfold str_of_int. intro H. apply py_inj in H.
  apply DecimalZ.to_int_inj.
  destruct (to_int_proper a) as [A1 A2]. destruct (to_int_proper b) as [B1 B2].
  pose proof (NilZero.isi (Z.to_int a) A1 A2) as Ia.
  pose proof (NilZero.isi (Z.to_int b) B1 B2) as Ib.
  rewrite H, Ib in Ia. now inversion Ia.
Qed.

(** X16. [capture_and_process_frame] answers SUCCESS for camera 1 and for no
    other; for every other camera it answers ERROR with a message that names
    the camera in decimal, so that two cameras never share a message. *)
Theorem capture_reports_the_camera (camera_id : Z) :
  (mapping_get (py "status") (capture_and_process_frame camera_id)
   = Some (py "SUCCESS") <-> camera_id = 1%Z)
  /\ (camera_id <> 1%Z ->
      mapping_get (py "status") (capture_and_process_frame camera_id)
      = Some (py "ERROR")
      /\ mapping_get (py "message") (capture_and_process_frame camera_id)
         = Some (py "Camera " ++ str_of_int camera_id ++ py " not found."))
  /\ (forall other,
        camera_id <> 1%Z -> other <> 1%Z ->
        capture_and_process_frame camera_id = capture_and_process_frame other ->
        camera_id = other).
Proof.
  unfold capture_and_process_frame. split; [|split].
  - destruct (Z.eqb_spec camera_id 1) as [E|E]; split; auto.
    + intro H. discriminate H.
    + intro H. now contradiction E.
  - intro A. destruct (Z.eqb_spec camera_id 1); [contradiction|]. now split.
  - intros other A B.
    destruct (Z.eqb_spec camera_id 1); [contradiction|].
    destruct (Z.eqb_spec other 1); [contradiction|].
    intro H. inversion H as [E].
    apply app_inv_tail in E. now apply str_of_int_inj.
Qed.

Lemma capture_reports_the_camera_witness :
  mapping_get (py "status") (capture_and_process_frame 7)
  = Some (py "ERROR")
  /\ mapping_get (py "message") (capture_and_process_frame 7)
     = Some (py "Camera " ++ str_of_int 7 ++ py " not found.").
Proof.
  apply (proj1 (proj2 (capture_reports_the_camera 7))). discriminate.
Defined.
